(** * RecordAligner: [clean_and_align_redcap_data] of redcap_cleaner_streamlit.py

    A shallow embedding of the pandas pipeline of
    [clean_and_align_redcap_data] (lines 7-53 of the source) and the
    properties of the specification that can be settled on it.

    Scope of the model.
    - A cell holds text, a number or a missing value (NaN/None).  Numbers are
      integers ([Z]): ids, repeat instances and years.  Text is ASCII, which
      is what [lower] and [strip] below cover.
    - A frame has a header (column name and dtype) and a list of rows; a row is
      an ordered mapping from column name to cell, and a field that a row lacks
      reads as missing.  The index is the default one and is not modelled, so
      [reset_index] and [ignore_index] are the identity.
    - A column dtype is [object_] or [numeric] (int64/float64).  The [.str]
      accessor of pandas is only available on an object column whose non-null
      values are not all numbers; everywhere else it raises AttributeError.
    - [Series.str.contains] compiles its pattern as a regular expression.  The
      engine is a parameter ([re_compile]); all that is assumed of it is that a
      pattern without metacharacters searches for itself.
    - Python's [==] on cells: a missing value equals nothing, not even
      itself. *)

From Stdlib Require Import List String Ascii ZArith Bool Lia Permutation Sorted.
From Stdlib Require OrderedTypeEx.
Import ListNotations.
Local Open Scope string_scope.
Local Open Scope Z_scope.
Local Open Scope list_scope.

Set Implicit Arguments.

(** ** Exceptions and the error monad *)

Inductive exn : Type :=
| KeyError (c : string)
| AttributeError
| TypeError
| ReError.

Inductive result (A : Type) : Type :=
| Ok (a : A)
| Raise (e : exn).

Arguments Ok {A} a.
Arguments Raise {A} e.

Definition bind {A B : Type} (m : result A) (k : A -> result B) : result B :=
  match m with
  | Ok a => k a
  | Raise e => Raise e
  end.

Notation "x <- m ;; k" := (bind m (fun x => k))
  (at level 61, m at next level, right associativity).

Fixpoint mapM {A B : Type} (f : A -> result B) (l : list A) : result (list B) :=
  match l with
  | [] => Ok []
  | x :: l' => y <- f x ;; ys <- mapM f l' ;; Ok (y :: ys)
  end.

(** ** Cells *)

Inductive value : Type :=
| VStr (s : string)
| VNum (n : Z)
| VNaN.

Definition isna (v : value) : bool :=
  match v with VNaN => true | _ => false end.

Definition is_str (v : value) : bool :=
  match v with VStr _ => true | _ => false end.

Definition is_num (v : value) : bool :=
  match v with VNum _ => true | _ => false end.

(** Python's [==] between two cells. *)
Definition value_eqb (a b : value) : bool :=
  match a, b with
  | VStr s, VStr t => String.eqb s t
  | VNum m, VNum n => Z.eqb m n
  | _, _ => false
  end.

(** ** Text: [str.lower], [str.strip], [in] *)

Definition lower_ascii (c : ascii) : ascii :=
  let n := nat_of_ascii c in
  if (Nat.leb 65 n && Nat.leb n 90)%bool then ascii_of_nat (n + 32) else c.

Fixpoint lower (s : string) : string :=
  match s with
  | EmptyString => EmptyString
  | String c s' => String (lower_ascii c) (lower s')
  end.

(** The ASCII characters for which [str.isspace] holds. *)
Definition is_space (c : ascii) : bool :=
  let n := nat_of_ascii c in
  ((Nat.leb 9 n && Nat.leb n 13) || (Nat.leb 28 n && Nat.leb n 32))%bool.

Fixpoint lstrip (s : string) : string :=
  match s with
  | EmptyString => EmptyString
  | String c s' => if is_space c then lstrip s' else s
  end.

Fixpoint rstrip (s : string) : string :=
  match s with
  | EmptyString => EmptyString
  | String c s' =>
      match rstrip s' with
      | EmptyString => if is_space c then EmptyString else String c EmptyString
      | t => String c t
      end
  end.

Definition strip (s : string) : string := rstrip (lstrip s).

Fixpoint all_space (s : string) : bool :=
  match s with
  | EmptyString => true
  | String c s' => (is_space c && all_space s')%bool
  end.

(** [p in s] *)
Fixpoint contains (p s : string) : bool :=
  (String.prefix p s ||
   match s with
   | EmptyString => false
   | String _ s' => contains p s'
   end)%bool.

(** The characters that are special in a Python regular expression. *)
(** [. ^ $ * + ? { } [ ] \ | ( )], by code point. *)
Definition is_meta (c : ascii) : bool :=
  existsb (Nat.eqb (nat_of_ascii c))
    [46; 94; 36; 42; 43; 63; 123; 125; 91; 93; 92; 124; 40; 41]%nat.

Fixpoint plain_pattern (p : string) : bool :=
  match p with
  | EmptyString => true
  | String c p' => (negb (is_meta c) && plain_pattern p')%bool
  end.

(** ** Rows, series and frames *)

Inductive dtype : Type := object_ | numeric.

Definition Row : Type := list (string * value).

Fixpoint lookup {A : Type} (c : string) (l : list (string * A)) : option A :=
  match l with
  | [] => None
  | (k, a) :: l' => if String.eqb k c then Some a else lookup c l'
  end.

Definition cell (c : string) (r : Row) : value :=
  match lookup c r with
  | Some v => v
  | None => VNaN
  end.

(** [l[c] = a] on an ordered mapping: overwrite in place or append. *)
Fixpoint assign {A : Type} (c : string) (a : A) (l : list (string * A))
  : list (string * A) :=
  match l with
  | [] => [(c, a)]
  | (k, b) :: l' =>
      if String.eqb k c then (k, a) :: l' else (k, b) :: assign c a l'
  end.

Fixpoint remove_key {A : Type} (c : string) (l : list (string * A))
  : list (string * A) :=
  match l with
  | [] => []
  | (k, b) :: l' =>
      if String.eqb k c then remove_key c l' else (k, b) :: remove_key c l'
  end.

Record Series : Type := mkSeries { s_dtype : dtype; s_values : list value }.

Record DataFrame : Type :=
  mkFrame { columns : list (string * dtype); rows : list Row }.

(** [df[c]] *)
Definition getitem (df : DataFrame) (c : string) : result Series :=
  match lookup c (columns df) with
  | Some d => Ok (mkSeries d (map (cell c) (rows df)))
  | None => Raise (KeyError c)
  end.

(** [df[c] = s] *)
Definition setitem (df : DataFrame) (c : string) (s : Series) : DataFrame :=
  mkFrame (assign c (s_dtype s) (columns df))
          (map (fun rv => assign c (snd rv) (fst rv))
               (combine (rows df) (s_values s))).

(** [df[mask]] with a boolean mask. *)
Fixpoint mask_rows {A : Type} (m : list bool) (l : list A) : list A :=
  match m, l with
  | b :: m', x :: l' => if b then x :: mask_rows m' l' else mask_rows m' l'
  | _, _ => []
  end.

Definition loc (df : DataFrame) (m : list bool) : DataFrame :=
  mkFrame (columns df) (mask_rows m (rows df)).

(** The validation behind [Series.str]: the dtype must be object and the
    non-null values must not be numbers only. *)
Definition str_ok (s : Series) : bool :=
  match s_dtype s with
  | object_ => (existsb is_str (s_values s) || forallb isna (s_values s))%bool
  | numeric => false
  end.

Definition str_accessor (s : Series) : result (list value) :=
  if str_ok s then Ok (s_values s) else Raise AttributeError.

(** An element-wise string method; a value that is not text gives NaN. *)
Definition str_map (f : string -> string) (v : value) : value :=
  match v with
  | VStr s => VStr (f s)
  | _ => VNaN
  end.

(** [s.str.lower()] *)
Definition str_lower (s : Series) : result Series :=
  vs <- str_accessor s ;; Ok (mkSeries object_ (map (str_map lower) vs)).

(** [s.str.strip()] *)
Definition str_strip (s : Series) : result Series :=
  vs <- str_accessor s ;; Ok (mkSeries object_ (map (str_map strip) vs)).

(** [s == ''] *)
Definition eq_empty (s : Series) : list bool :=
  map (fun v => value_eqb v (VStr EmptyString)) (s_values s).

(** [.all(axis=1)] over the boolean columns [cols] of a frame with [n] rows. *)
Fixpoint all_axis1 (n : nat) (cols : list (list bool)) : list bool :=
  match cols with
  | [] => repeat true n
  | c :: cs => map (fun p => (fst p && snd p)%bool) (combine c (all_axis1 n cs))
  end.

(** [df.dropna(subset=subset, how='all')] *)
Definition dropna_all (df : DataFrame) (subset : list string)
  : result DataFrame :=
  cols <- mapM (getitem df) subset ;;
  let null := map (fun s => map isna (s_values s)) cols in
  Ok (loc df (map negb (all_axis1 (List.length (rows df)) null))).

(** [set(s)], [a.intersection(b)] and [s.isin(ids)] *)
Definition py_set (s : Series) : list value := s_values s.

Definition intersection (a b : list value) : list value :=
  filter (fun x => existsb (value_eqb x) b) a.

Definition isin (s : Series) (ids : list value) : list bool :=
  map (fun v => existsb (value_eqb v) ids) (s_values s).

(** [pd.concat([a, b], ignore_index=True)] of two frames with one header. *)
Definition concat (a b : DataFrame) : DataFrame :=
  mkFrame (columns a) (rows a ++ rows b).

(** [s.apply(f)] *)
Definition series_apply (f : value -> result value) (s : Series)
  : result Series :=
  vs <- mapM f (s_values s) ;; Ok (mkSeries numeric vs).

(** [df.drop(columns=[c])] *)
Definition drop_column (df : DataFrame) (c : string) : result DataFrame :=
  match lookup c (columns df) with
  | Some _ => Ok (mkFrame (remove_key c (columns df))
                          (map (remove_key c) (rows df)))
  | None => Raise (KeyError c)
  end.

(** ** [sort_values]

    Several sort keys go through a stable lexicographic sort in which numbers
    come before text and missing values come last. *)

Definition value_rank (v : value) : nat :=
  match v with
  | VNum _ => 0
  | VStr _ => 1
  | VNaN => 2
  end.

Definition value_leb (a b : value) : bool :=
  match a, b with
  | VNum m, VNum n => Z.leb m n
  | VStr s, VStr t => String.leb s t
  | _, _ => Nat.leb (value_rank a) (value_rank b)
  end.

Fixpoint key_leb (k1 k2 : list value) : bool :=
  match k1, k2 with
  | a :: k1', b :: k2' =>
      if value_leb a b then (if value_leb b a then key_leb k1' k2' else true)
      else false
  | _, _ => true
  end.

Section StableSort.
Variable A : Type.
Variable leb : A -> A -> bool.

Fixpoint insert (x : A) (l : list A) : list A :=
  match l with
  | [] => [x]
  | y :: l' => if leb x y then x :: l else y :: insert x l'
  end.

Fixpoint stable_sort (l : list A) : list A :=
  match l with
  | [] => []
  | x :: l' => insert x (stable_sort l')
  end.
End StableSort.

Definition sort_key (by_ : list string) (r : Row) : list value :=
  map (fun c => cell c r) by_.

Definition row_leb (by_ : list string) (r1 r2 : Row) : bool :=
  key_leb (sort_key by_ r1) (sort_key by_ r2).

(** [df.sort_values(by=by_)] *)
Definition sort_values (df : DataFrame) (by_ : list string)
  : result DataFrame :=
  _ <- mapM (getitem df) by_ ;;
  Ok (mkFrame (columns df) (stable_sort (row_leb by_) (rows df))).

(** ** The transformation *)

Definition key_fields : list string :=
  ["Research output title"; "APA reference citation of Publication";
   "Date of publication"; "Publication Year";
   "Name of the publishing Journal"].

(** [lambda x: 0 if profile_pattern in x else 1] *)
Definition sort_key_of (profile_pattern : string) (x : value) : result value :=
  match x with
  | VStr e => Ok (VNum (if contains profile_pattern e then 0 else 1))
  | _ => Raise TypeError
  end.

(** [period_df[key_fields].apply(lambda x: x.str.strip() == '').all(axis=1)].
    On a frame without rows [DataFrame.apply] does not run the function on the
    columns and hands back the empty frame. *)
Definition blank_mask (df : DataFrame) : result (list bool) :=
  cols <- mapM (getitem df) key_fields ;;
  match rows df with
  | [] => Ok []
  | _ :: _ =>
      bs <- mapM (fun x => t <- str_strip x ;; Ok (eq_empty t)) cols ;;
      Ok (all_axis1 (List.length (rows df)) bs)
  end.

Section Align.

(** [re.compile]: [None] when the pattern does not compile, otherwise the
    search function of the compiled pattern. *)
Variable re_compile : string -> option (string -> bool).

(** [s.str.contains(pat, na=False)] *)
Definition str_contains (s : Series) (pat : string) : result (list bool) :=
  vs <- str_accessor s ;;
  match re_compile pat with
  | None => Raise ReError
  | Some search =>
      Ok (map (fun v => match v with VStr t => search t | _ => false end) vs)
  end.

(** The function of the source.  The first component is the caller's frame
    when the call is over (line 15 assigns to a column of it), the second
    what the call returns or raises. *)
Definition clean_and_align_redcap_data (df : DataFrame)
    (profile_pattern period_pattern id_col event_col : string)
  : DataFrame * result DataFrame :=
  match (x <- getitem df event_col ;; str_lower x) with
  | Raise e => (df, Raise e)
  | Ok ev =>
      let df := setitem df event_col ev in
      (df,
       pm <- (x <- getitem df event_col ;; str_contains x profile_pattern) ;;
       let profile_df := loc df pm in
       qm <- (x <- getitem df event_col ;; str_contains x period_pattern) ;;
       let period_df := loc df qm in
       period_df <- dropna_all period_df key_fields ;;
       bm <- blank_mask period_df ;;
       let period_df := loc period_df (map negb bm) in
       pid <- getitem profile_df id_col ;;
       let profile_ids := py_set pid in
       qid <- getitem period_df id_col ;;
       let period_ids := py_set qid in
       let valid_ids := intersection profile_ids period_ids in
       pin <- getitem profile_df id_col ;;
       let profile_df := loc profile_df (isin pin valid_ids) in
       qin <- getitem period_df id_col ;;
       let period_df := loc period_df (isin qin valid_ids) in
       let result_df := concat profile_df period_df in
       ev <- getitem result_df event_col ;;
       sk <- series_apply (sort_key_of profile_pattern) ev ;;
       let result_df := setitem result_df "Sort_Key" sk in
       result_df <- sort_values result_df
                      [id_col; "Sort_Key"; "Repeat Instance"] ;;
       result_df <- drop_column result_df "Sort_Key" ;;
       Ok result_df)
  end.

End Align.

(** A regular-expression engine restricted to what the model assumes: a
    pattern without metacharacters searches for itself, any other pattern is
    refused. *)
Definition re_literal (p : string) : option (string -> bool) :=
  if plain_pattern p then Some (contains p) else None.

(** What is assumed of [re.compile]. *)
Definition re_conforms (re_compile : string -> option (string -> bool)) : Prop :=
  forall p, plain_pattern p = true ->
    exists search,
      re_compile p = Some search /\ forall s, search s = contains p s.


(** ** The pipeline read row by row

    The same transformation written over rows: every mask of the source is a
    [filter], every column it computes is a function of the row.
    [clean_and_align_redcap_data_rows] is shown below to agree with
    [clean_and_align_redcap_data]; the properties are proved on it. *)

(** The row after line 15. *)
Definition lower_row (event_col : string) (r : Row) : Row :=
  assign event_col (str_map lower (cell event_col r)) r.

(** The event of the row is text and the pattern occurs in it. *)
Definition matches (p event_col : string) (r : Row) : bool :=
  match cell event_col r with
  | VStr t => contains p t
  | _ => false
  end.

(** Every key field is missing: what [dropna(how='all')] discards. *)
Definition all_null (r : Row) : bool :=
  forallb (fun c => isna (cell c r)) key_fields.

(** [v.strip() == ''] for a cell. *)
Definition blank_text (v : value) : bool :=
  value_eqb (str_map strip v) (VStr EmptyString).

(** Every key field is whitespace-only text: what line 27 discards. *)
Definition all_blank (r : Row) : bool :=
  forallb (fun c => blank_text (cell c r)) key_fields.

(** The period rows that survive lines 26 and 27. *)
Definition kept_period (r : Row) : bool :=
  (negb (all_null r) && negb (all_blank r))%bool.

Definition column_of (hdr : list (string * dtype)) (rs : list Row) (c : string)
  : Series :=
  mkSeries (match lookup c hdr with Some d => d | None => object_ end)
           (map (cell c) rs).

(** Line 27 can use [.str] on each key column of the rows [rs]. *)
Definition keys_str_ok (hdr : list (string * dtype)) (rs : list Row) : bool :=
  match rs with
  | [] => true
  | _ :: _ => forallb (fun c => str_ok (column_of hdr rs c)) key_fields
  end.

Definition first_missing {A : Type} (cs : list string) (hdr : list (string * A))
  : option string :=
  find (fun c => match lookup c hdr with None => true | Some _ => false end) cs.

Definition has_id (id_col : string) (ids : list value) (r : Row) : bool :=
  existsb (value_eqb (cell id_col r)) ids.

Definition with_sort_key (profile_pattern event_col : string) (r : Row) : Row :=
  assign "Sort_Key"
    (VNum (if matches profile_pattern event_col r then 0 else 1)) r.

(** The row that the result holds for the row [x] of the working table. *)
Definition out_row (profile_pattern event_col : string) (x : Row) : Row :=
  remove_key "Sort_Key" (with_sort_key profile_pattern event_col x).

Definition period_rows (period_pattern event_col : string) (rs : list Row)
  : list Row :=
  filter (fun r => negb (all_blank r))
    (filter (fun r => negb (all_null r)) (filter (matches period_pattern event_col) rs)).

Definition valid_ids (profile_pattern period_pattern id_col event_col : string)
    (rs : list Row) : list value :=
  intersection
    (map (cell id_col) (filter (matches profile_pattern event_col) rs))
    (map (cell id_col) (period_rows period_pattern event_col rs)).

Definition sort_columns (id_col : string) : list string :=
  [id_col; "Sort_Key"; "Repeat Instance"].

(** Lines 18 to 51 on the rows of the lower-cased frame. *)
Definition aligned_rows (profile_pattern period_pattern id_col event_col : string)
    (rs : list Row) : list Row :=
  let valid := valid_ids profile_pattern period_pattern id_col event_col rs in
  let profile := filter (has_id id_col valid)
                   (filter (matches profile_pattern event_col) rs) in
  let period := filter (has_id id_col valid)
                  (period_rows period_pattern event_col rs) in
  map (remove_key "Sort_Key")
    (stable_sort (row_leb (sort_columns id_col))
       (map (with_sort_key profile_pattern event_col) (profile ++ period))).

Definition clean_and_align_redcap_data_rows (df : DataFrame)
    (profile_pattern period_pattern id_col event_col : string)
  : DataFrame * result DataFrame :=
  match lookup event_col (columns df) with
  | None => (df, Raise (KeyError event_col))
  | Some d =>
      if str_ok (mkSeries d (map (cell event_col) (rows df))) then
        let hdr := assign event_col object_ (columns df) in
        let rs := map (lower_row event_col) (rows df) in
        (mkFrame hdr rs,
         match first_missing key_fields hdr with
         | Some c => Raise (KeyError c)
         | None =>
             if keys_str_ok hdr
                  (filter (fun r => negb (all_null r))
                     (filter (matches period_pattern event_col) rs))
             then
               match first_missing [id_col; "Repeat Instance"] hdr with
               | Some c => Raise (KeyError c)
               | None =>
                   Ok (mkFrame
                         (remove_key "Sort_Key" (assign "Sort_Key" numeric hdr))
                         (aligned_rows profile_pattern period_pattern
                            id_col event_col rs))
               end
             else Raise AttributeError
         end)
      else (df, Raise AttributeError)
  end.

(** ** Classification and emptiness as the specification words them *)

(** A key field is empty: absent, or whitespace-only text. *)
Definition empty_field (v : value) : bool :=
  match v with
  | VNaN => true
  | VStr s => all_space s
  | VNum _ => false
  end.

(** The row has at least one key field that is not empty. *)
Definition has_key_data (r : Row) : bool :=
  existsb (fun c => negb (empty_field (cell c r))) key_fields.

(** Two rows belong to the same subject. *)
Definition same_id (id_col : string) (r1 r2 : Row) : bool :=
  value_eqb (cell id_col r1) (cell id_col r2).

(** The column [c] exists, has dtype object and holds text or missing values
    only. *)
Definition text_column (df : DataFrame) (c : string) : bool :=
  match lookup c (columns df) with
  | Some object_ => forallb (fun r => negb (is_num (cell c r))) (rows df)
  | _ => false
  end.

Definition has_column (df : DataFrame) (c : string) : bool :=
  match lookup c (columns df) with
  | Some _ => true
  | None => false
  end.

(** The table has the columns the transformation reads, and its event and
    key-field columns are text columns. *)
Definition text_schema (df : DataFrame) (id_col event_col : string) : bool :=
  (text_column df event_col && forallb (text_column df) key_fields &&
   has_column df id_col && has_column df "Repeat Instance")%bool.

(** The pairing invariant of the specification on the rows of a result: every
    row has the id of a Profile row and of a Period row with key data. *)
Definition pairing_holds (profile_pattern period_pattern id_col event_col : string)
    (out : list Row) : bool :=
  forallb
    (fun r =>
       (existsb (fun r1 => same_id id_col r r1 &&
                           matches profile_pattern event_col r1) out &&
        existsb (fun r2 => same_id id_col r r2 &&
                           matches period_pattern event_col r2 &&
                           has_key_data r2) out)%bool)
    out.


(** ** Tables used in the examples *)

Definition obj (c : string) : string * dtype := (c, object_).
Definition num (c : string) : string * dtype := (c, numeric).

(** Ids and repeat instances are numbers, all other columns hold objects. *)
Definition header : list (string * dtype) :=
  [num "Record ID"; obj "Event Name"; num "Repeat Instance";
   obj "Research output title"; obj "APA reference citation of Publication";
   obj "Date of publication"; obj "Publication Year";
   obj "Name of the publishing Journal"].

(** The same with a numeric [Publication Year], as [read_csv] types a column
    of years. *)
Definition header_numeric_year : list (string * dtype) :=
  [num "Record ID"; obj "Event Name"; num "Repeat Instance";
   obj "Research output title"; obj "APA reference citation of Publication";
   obj "Date of publication"; num "Publication Year";
   obj "Name of the publishing Journal"].

Definition mk_row (id : Z) (ev : value) (rep : Z) (title year : value) : Row :=
  [("Record ID", VNum id); ("Event Name", ev); ("Repeat Instance", VNum rep);
   ("Research output title", title);
   ("APA reference citation of Publication", VNaN);
   ("Date of publication", VNaN); ("Publication Year", year);
   ("Name of the publishing Journal", VNaN)].

(** The five rows of the concrete scenario of the specification. *)
Definition scenario : DataFrame :=
  mkFrame header
    [mk_row 1 (VStr "Profile") 1 VNaN VNaN;
     mk_row 1 (VStr "Period") 1 (VStr "Paper A") VNaN;
     mk_row 2 (VStr "Profile") 1 VNaN VNaN;
     mk_row 2 (VStr "Period") 1 (VStr EmptyString) VNaN;
     mk_row 3 (VStr "Period") 1 (VStr "Paper B") VNaN].

(** The same five rows as [read_csv] types them: an empty cell is missing, and
    a column with empty cells only is a float64 column. *)
Definition header_csv : list (string * dtype) :=
  [num "Record ID"; obj "Event Name"; num "Repeat Instance";
   obj "Research output title"; num "APA reference citation of Publication";
   num "Date of publication"; num "Publication Year";
   num "Name of the publishing Journal"].

Definition scenario_csv : DataFrame :=
  mkFrame header_csv
    [mk_row 1 (VStr "Profile") 1 VNaN VNaN;
     mk_row 1 (VStr "Period") 1 (VStr "Paper A") VNaN;
     mk_row 2 (VStr "Profile") 1 VNaN VNaN;
     mk_row 2 (VStr "Period") 1 VNaN VNaN;
     mk_row 3 (VStr "Period") 1 (VStr "Paper B") VNaN].

(** A subject whose only period row holds blanks of both kinds. *)
Definition mixed_blank : DataFrame :=
  mkFrame header
    [mk_row 1 (VStr "Profile") 1 VNaN VNaN;
     mk_row 1 (VStr "Period") 1 (VStr "  ") VNaN].


Definition dual_blank : DataFrame :=
  mkFrame header
    [mk_row 1 (VStr "profile period") 1 VNaN VNaN;
     mk_row 1 (VStr "period") 1 (VStr "Paper") VNaN].

Definition dual_single : DataFrame :=
  mkFrame header [mk_row 1 (VStr "profile period") 1 (VStr "Paper") VNaN].

(** A period row with a year in a numeric column. *)
Definition numeric_year : DataFrame :=
  mkFrame header_numeric_year
    [mk_row 1 (VStr "Profile") 1 VNaN VNaN;
     mk_row 1 (VStr "Period") 1 (VStr "Paper A") (VNum 2020)].

(** A subject with a profile, two periods out of order and a row without
    event. *)
Definition paired : DataFrame :=
  mkFrame header
    [mk_row 1 (VStr "Period") 2 (VStr "Paper B") VNaN;
     mk_row 1 VNaN 1 (VStr "Note") VNaN;
     mk_row 1 (VStr "Period") 1 (VStr "Paper A") VNaN;
     mk_row 1 (VStr "Profile") 1 VNaN VNaN].

Definition paired_result : DataFrame :=
  mkFrame header
    [mk_row 1 (VStr "profile") 1 VNaN VNaN;
     mk_row 1 (VStr "period") 1 (VStr "Paper A") VNaN;
     mk_row 1 (VStr "period") 2 (VStr "Paper B") VNaN].

Definition empty_table : DataFrame := mkFrame header [].

(** The rows of [paired] with other letter cases in the events. *)
Definition paired_upper : DataFrame :=
  mkFrame header
    [mk_row 1 (VStr "PERIOD") 2 (VStr "Paper B") VNaN;
     mk_row 1 VNaN 1 (VStr "Note") VNaN;
     mk_row 1 (VStr "period") 1 (VStr "Paper A") VNaN;
     mk_row 1 (VStr "ProFile") 1 VNaN VNaN].

(** ** What the call needs in order to return *)

(** The event column exists and [.str] is available on it, the key-field,
    id and [Repeat Instance] columns exist, and [.str] is available on
    every key-field column of the period rows that line 26 leaves. *)
Definition can_align (df : DataFrame) (period_pattern id_col event_col : string)
  : bool :=
  match lookup event_col (columns df) with
  | None => false
  | Some d =>
      (str_ok (mkSeries d (map (cell event_col) (rows df))) &&
       forallb (has_column df) (key_fields ++ [id_col; "Repeat Instance"]) &&
       keys_str_ok (assign event_col object_ (columns df))
         (filter (fun r => negb (all_null r))
            (filter (matches period_pattern event_col)
               (map (lower_row event_col) (rows df)))))%bool
  end.

(** An ASCII capital letter, and the text that holds one. *)
Definition is_upper (c : ascii) : bool :=
  let n := nat_of_ascii c in (Nat.leb 65 n && Nat.leb n 90)%bool.

Fixpoint has_upper (s : string) : bool :=
  match s with
  | EmptyString => false
  | String c s' => (is_upper c || has_upper s')%bool
  end.

(** ** The Streamlit shell (lines 63 to 93)

    [pd.read_csv] and [to_csv] are outside the model: the shell is modelled
    from the frame that [read_csv] returned, and the download carries the
    frame that [to_csv] would serialise.  What the shell shows is a list of
    events, one per [st.write], [st.error] or [st.download_button]. *)

Inductive ui_event : Type :=
| write_original (n : nat)
| write_filtered (n : nat)
| write_unique (n : nat)
| download_button (file_name : string) (data : DataFrame)
| error_no_data
| error_exception (e : exn).

Definition value_eq_dec (a b : value) : {a = b} + {a <> b}.
Proof. decide equality; [apply string_dec | apply Z.eq_dec]. Defined.

(** [len(df)] *)
Definition len (df : DataFrame) : nat := List.length (rows df).

(** [df.empty]: one of the two axes has length 0. *)
Definition empty (df : DataFrame) : bool :=
  match columns df, rows df with
  | _ :: _, _ :: _ => false
  | _, _ => true
  end.

(** [s.nunique()]: the number of distinct values, missing ones left out. *)
Definition nunique (s : Series) : nat :=
  List.length (nodup value_eq_dec (filter (fun v => negb (isna v)) (s_values s))).

Section Shell.

Variable re_compile : string -> option (string -> bool).

(** The body of the [try] from line 67 on, with its [except]. *)
Definition process_upload (file_name : string) (df : DataFrame) : list ui_event :=
  write_original (len df) ::
  match snd (clean_and_align_redcap_data re_compile df
               "profile" "period" "Record ID" "Event Name") with
  | Raise e => [error_exception e]
  | Ok cleaned_df =>
      if negb (empty cleaned_df) then
        write_filtered (len cleaned_df) ::
        match getitem cleaned_df "Record ID" with
        | Raise e => [error_exception e]
        | Ok ids =>
            [write_unique (nunique ids);
             download_button (String.append "cleaned_" file_name) cleaned_df]
        end
      else [error_no_data]
  end.

End Shell.

(** * Properties *)

(** ** Ordered mappings *)

Lemma lookup_assign_same (A : Type) (c : string) (a : A) l :
  lookup c (assign c a l) = Some a.
Proof.
  induction l as [|[k b] l IH]; simpl.
  - now rewrite String.eqb_refl.
  - destruct (String.eqb k c) eqn:E; simpl; rewrite E; auto.
Qed.

Lemma lookup_assign_other (A : Type) (c k : string) (a : A) l :
  k <> c -> lookup c (assign k a l) = lookup c l.
Proof.
  intros Hk. induction l as [|[k' b] l IH]; simpl.
  - apply String.eqb_neq in Hk. now rewrite Hk.
  - destruct (String.eqb k' k) eqn:E; simpl.
    + apply String.eqb_eq in E. subst k'.
      apply String.eqb_neq in Hk. now rewrite Hk.
    + destruct (String.eqb k' c); auto.
Qed.

Lemma lookup_assign_some (A : Type) (c k : string) (a : A) l :
  lookup c l <> None -> lookup c (assign k a l) <> None.
Proof.
  intros H. destruct (String.eqb_spec k c) as [->|Hk].
  - now rewrite lookup_assign_same.
  - now rewrite lookup_assign_other.
Qed.

Lemma lookup_remove_other (A : Type) (c k : string) (l : list (string * A)) :
  k <> c -> lookup c (remove_key k l) = lookup c l.
Proof.
  intros Hk. induction l as [|[k' b] l IH]; simpl; auto.
  destruct (String.eqb k' k) eqn:E; simpl.
  - apply String.eqb_eq in E. subst k'.
    apply String.eqb_neq in Hk. now rewrite Hk.
  - now rewrite IH.
Qed.

Lemma remove_assign_fresh (A : Type) (k : string) (a : A) l :
  lookup k l = None -> remove_key k (assign k a l) = l.
Proof.
  induction l as [|[k' b] l IH]; simpl; intros H.
  - now rewrite String.eqb_refl.
  - destruct (String.eqb k' k) eqn:E; [discriminate|].
    simpl. rewrite E. now rewrite IH.
Qed.

Lemma cell_assign_same c v r : cell c (assign c v r) = v.
Proof. unfold cell. now rewrite lookup_assign_same. Qed.

Lemma cell_assign_other c k v r : k <> c -> cell c (assign k v r) = cell c r.
Proof. intros H. unfold cell. now rewrite lookup_assign_other. Qed.

Lemma cell_remove_other c k (r : Row) : k <> c -> cell c (remove_key k r) = cell c r.
Proof. intros H. unfold cell. now rewrite lookup_remove_other. Qed.

(** ** Masks, reductions and [mapM] *)

Lemma mask_rows_map (A : Type) (f : A -> bool) (l : list A) :
  mask_rows (map f l) l = filter f l.
Proof.
  induction l as [|x l IH]; simpl; auto.
  destruct (f x); now rewrite IH.
Qed.

Lemma map_combine_self (A B C : Type) (f : A -> B) (g : A * B -> C) (l : list A) :
  map g (combine l (map f l)) = map (fun x => g (x, f x)) l.
Proof. induction l as [|x l IH]; simpl; auto. now rewrite IH. Qed.

Lemma all_axis1_rows (A C : Type) (f : C -> A -> bool) (cs : list C) (l : list A) :
  all_axis1 (List.length l) (map (fun c => map (f c) l) cs)
  = map (fun x => forallb (fun c => f c x) cs) l.
Proof.
  induction cs as [|c cs IH]; simpl.
  - induction l as [|x l IHl]; simpl; auto. now rewrite IHl.
  - rewrite IH. clear IH.
    induction l as [|x l IHl]; simpl; auto. now rewrite IHl.
Qed.

Lemma mapM_guard (A B : Type) (g : A -> bool) (h : A -> B) (e : exn)
      (f : A -> result B) (l : list A) :
  (forall x, f x = if g x then Ok (h x) else Raise e) ->
  mapM f l = if forallb g l then Ok (map h l) else Raise e.
Proof.
  intros Hf. induction l as [|x l IH]; simpl; auto.
  rewrite Hf. destruct (g x); simpl; auto.
  rewrite IH. destruct (forallb g l); auto.
Qed.

Lemma mapM_getitem hdr rs cs :
  mapM (getitem (mkFrame hdr rs)) cs =
  match first_missing cs hdr with
  | Some c => Raise (KeyError c)
  | None => Ok (map (column_of hdr rs) cs)
  end.
Proof.
  unfold first_missing.
  induction cs as [|c cs IH]; simpl; auto.
  unfold getitem at 1, column_of at 1. simpl.
  destruct (lookup c hdr); simpl; auto.
  rewrite IH. destruct (find _ cs); auto.
Qed.

Lemma getitem_frame hdr rs c d :
  lookup c hdr = Some d ->
  getitem (mkFrame hdr rs) c = Ok (mkSeries d (map (cell c) rs)).
Proof. intros H. unfold getitem. simpl. now rewrite H. Qed.

Lemma setitem_rows hdr rs c d (f : Row -> value) :
  setitem (mkFrame hdr rs) c (mkSeries d (map f rs))
  = mkFrame (assign c d hdr) (@map Row Row (fun r => assign c (f r) r) rs).
Proof.
  unfold setitem. simpl. f_equal.
  apply (map_combine_self f (fun rv => assign c (snd rv) (fst rv))).
Qed.

(** ** Text *)

Lemma rstrip_empty s : rstrip s = EmptyString <-> all_space s = true.
Proof.
  induction s as [|c s IH]; simpl.
  - tauto.
  - destruct (rstrip s) eqn:E.
    + destruct (is_space c); simpl.
      * split; intros _; auto. now apply IH.
      * split; discriminate.
    + split; [discriminate|].
      intros H. apply andb_true_iff in H. destruct H as [_ H].
      apply IH in H. discriminate.
Qed.

Lemma all_space_lstrip s : all_space (lstrip s) = all_space s.
Proof.
  induction s as [|c s IH]; simpl; auto.
  destruct (is_space c) eqn:E; simpl; auto. now rewrite E.
Qed.

(** [s.strip() == ''] holds exactly of whitespace-only text. *)
Lemma strip_empty s : String.eqb (strip s) EmptyString = all_space s.
Proof.
  unfold strip.
  destruct (all_space s) eqn:E.
  - apply String.eqb_eq, rstrip_empty. now rewrite all_space_lstrip.
  - apply String.eqb_neq. intros H. apply rstrip_empty in H.
    rewrite all_space_lstrip in H. congruence.
Qed.

Lemma blank_text_spec v :
  blank_text v = match v with VStr s => all_space s | _ => false end.
Proof. destruct v; simpl; auto. unfold blank_text. simpl. apply strip_empty. Qed.

Lemma contains_empty s : contains EmptyString s = true.
Proof. destruct s; reflexivity. Qed.

(** ** The blank filter and the emptiness of the specification *)

Lemma all_null_empty r : all_null r = true -> has_key_data r = false.
Proof.
  unfold all_null, has_key_data. intros H.
  induction key_fields as [|c cs IH]; simpl in *; auto.
  apply andb_true_iff in H. destruct H as [Hc H].
  rewrite (IH H). destruct (cell c r); simpl in *; auto; discriminate.
Qed.

Lemma all_blank_empty r : all_blank r = true -> has_key_data r = false.
Proof.
  unfold all_blank, has_key_data. intros H.
  induction key_fields as [|c cs IH]; simpl in *; auto.
  apply andb_true_iff in H. destruct H as [Hc H].
  rewrite (IH H). rewrite blank_text_spec in Hc.
  destruct (cell c r); simpl in *; try discriminate. now rewrite Hc.
Qed.

(** A period row with a key field that is not empty passes lines 26 and 27
    (when these do not raise). *)
Lemma has_key_data_kept r : has_key_data r = true -> kept_period r = true.
Proof.
  intros H. unfold kept_period.
  destruct (all_null r) eqn:En;
    [rewrite (all_null_empty _ En) in H; discriminate|].
  destruct (all_blank r) eqn:Eb;
    [rewrite (all_blank_empty _ Eb) in H; discriminate|].
  reflexivity.
Qed.

(** ** The [.str] accessor after line 15 *)

Lemma str_ok_text vs :
  Forall (fun v => is_num v = false) vs -> str_ok (mkSeries object_ vs) = true.
Proof.
  unfold str_ok. simpl. induction 1 as [|v vs Hv _ IH]; simpl; auto.
  destruct v; simpl in *; auto; discriminate.
Qed.

Lemma cell_lower_row ev r : cell ev (lower_row ev r) = str_map lower (cell ev r).
Proof. unfold lower_row. apply cell_assign_same. Qed.

Lemma lowered_event_text ev (rs : list Row) :
  Forall (fun v => is_num v = false) (map (cell ev) (map (lower_row ev) rs)).
Proof.
  induction rs as [|r rs IH]; simpl; constructor; auto.
  rewrite cell_lower_row. now destruct (cell ev r).
Qed.

(** ** The steps of the pipeline, row by row *)

Opaque key_fields.

Lemma forallb_map (A B : Type) (g : B -> bool) (f : A -> B) (l : list A) :
  forallb g (map f l) = forallb (fun x => g (f x)) l.
Proof. induction l as [|x l IH]; simpl; auto. now rewrite IH. Qed.

Lemma dropna_all_rows hdr rs :
  dropna_all (mkFrame hdr rs) key_fields =
  match first_missing key_fields hdr with
  | Some c => Raise (KeyError c)
  | None => Ok (mkFrame hdr (filter (fun r => negb (all_null r)) rs))
  end.
Proof.
  unfold dropna_all. rewrite mapM_getitem.
  destruct (first_missing key_fields hdr); simpl; auto.
  f_equal. unfold loc. simpl. f_equal.
  rewrite map_map.
  rewrite (map_ext (fun c => map isna (s_values (column_of hdr rs c)))
                   (fun c => map (fun r => isna (cell c r)) rs)).
  2:{ intros c. unfold column_of. simpl. apply map_map. }
  rewrite (all_axis1_rows (fun c r => isna (cell c r))).
  rewrite map_map. apply mask_rows_map.
Qed.

Lemma blank_columns hdr rs :
  mapM (fun x => t <- str_strip x ;; Ok (eq_empty t))
       (map (column_of hdr rs) key_fields)
  = if forallb (fun c => str_ok (column_of hdr rs c)) key_fields
    then Ok (map (fun c => map (fun r => blank_text (cell c r)) rs) key_fields)
    else Raise AttributeError.
Proof.
  rewrite (mapM_guard str_ok (fun x => map blank_text (s_values x)) AttributeError).
  2:{ intros x. unfold str_strip, str_accessor, eq_empty.
      destruct (str_ok x); cbn [bind s_values]; auto. now rewrite map_map. }
  rewrite forallb_map.
  destruct (forallb _ key_fields); auto.
  f_equal. rewrite map_map. apply map_ext.
  intros c. unfold column_of. cbn [s_values]. apply map_map.
Qed.

Lemma blank_mask_rows hdr rs :
  first_missing key_fields hdr = None ->
  blank_mask (mkFrame hdr rs) =
  if keys_str_ok hdr rs then Ok (map all_blank rs) else Raise AttributeError.
Proof.
  intros Hk. unfold blank_mask. rewrite mapM_getitem, Hk.
  cbn [bind rows]. rewrite blank_columns.
  destruct rs as [|r0 rs0]; [reflexivity|].
  unfold keys_str_ok.
  destruct (forallb _ key_fields); cbn [bind]; auto.
  f_equal. apply (all_axis1_rows (fun c r => blank_text (cell c r))).
Qed.

Lemma matches_is_str p ev r : matches p ev r = true -> is_str (cell ev r) = true.
Proof. unfold matches. destruct (cell ev r); auto; discriminate. Qed.

Lemma series_apply_rows pp ev (rs : list Row) :
  Forall (fun r => is_str (cell ev r) = true) rs ->
  series_apply (sort_key_of pp) (mkSeries object_ (map (cell ev) rs))
  = Ok (mkSeries numeric
          (map (fun r => VNum (if matches pp ev r then 0 else 1)) rs)).
Proof.
  intros H. unfold series_apply. simpl.
  assert (E : mapM (sort_key_of pp) (map (cell ev) rs)
              = Ok (map (fun r => VNum (if matches pp ev r then 0 else 1)) rs)).
  { induction H as [|r rs Hr _ IH]; simpl; auto.
    rewrite IH. unfold matches.
    destruct (cell ev r); simpl in *; try discriminate. reflexivity. }
  now rewrite E.
Qed.

Section Refinement.

Variable re_compile : string -> option (string -> bool).
Hypothesis re_ok : re_conforms re_compile.

Lemma str_contains_rows (p ev : string) (rs : list Row) :
  plain_pattern p = true ->
  str_ok (mkSeries object_ (map (cell ev) rs)) = true ->
  str_contains re_compile (mkSeries object_ (map (cell ev) rs)) p
  = Ok (map (matches p ev) rs).
Proof.
  intros Hp Hs. unfold str_contains, str_accessor. rewrite Hs. simpl.
  destruct (re_ok p Hp) as [search [E Hsearch]]. rewrite E.
  f_equal. rewrite map_map. apply map_ext.
  intros r. unfold matches. destruct (cell ev r); auto.
Qed.

(** The column-wise model and the row-wise one agree. *)
Lemma align_rows_eq (df : DataFrame) (pp qq id_col ev : string) :
  plain_pattern pp = true -> plain_pattern qq = true ->
  clean_and_align_redcap_data re_compile df pp qq id_col ev
  = clean_and_align_redcap_data_rows df pp qq id_col ev.
Proof.
  intros Hpp Hqq. destruct df as [hdr0 rs0].
  unfold clean_and_align_redcap_data, clean_and_align_redcap_data_rows.
  unfold getitem at 1. simpl columns. simpl rows.
  destruct (lookup ev hdr0) as [d|] eqn:Hev; simpl; auto.
  unfold str_lower, str_accessor.
  destruct (str_ok _) eqn:Hok; simpl; auto.
  rewrite map_map.
  rewrite (setitem_rows hdr0 rs0 ev object_
             (fun r => str_map lower (cell ev r))).
  fold (lower_row ev).
  set (hdr := assign ev object_ hdr0).
  set (rs := map (lower_row ev) rs0).
  f_equal.
  assert (Hl : lookup ev hdr = Some object_) by apply lookup_assign_same.
  assert (Hs : str_ok (mkSeries object_ (map (cell ev) rs)) = true)
    by apply str_ok_text, lowered_event_text.
  clearbody hdr rs.
  rewrite (@getitem_frame hdr _ ev object_ Hl). cbn [bind].
  rewrite !str_contains_rows by assumption. cbn [bind].
  unfold loc. cbn [rows columns]. rewrite !mask_rows_map.
  rewrite dropna_all_rows.
  destruct (first_missing key_fields hdr) eqn:Hk; cbn [bind]; auto.
  rewrite blank_mask_rows by assumption.
  destruct (keys_str_ok hdr _); cbn [bind]; auto.
  cbn [rows columns]. rewrite map_map, mask_rows_map.
  fold (period_rows qq ev rs).
  unfold first_missing. cbn [find].
  destruct (lookup id_col hdr) as [di|] eqn:Hid.
  2:{ unfold getitem. cbn [columns]. now rewrite Hid. }
  rewrite !(@getitem_frame hdr _ id_col di Hid). cbn [bind].
  unfold isin, py_set. cbn [s_values]. rewrite !map_map.
  fold (valid_ids pp qq id_col ev rs).
  change (fun x => existsb (value_eqb (cell id_col x)) (valid_ids pp qq id_col ev rs))
    with (has_id id_col (valid_ids pp qq id_col ev rs)).
  rewrite !mask_rows_map.
  unfold concat. cbn [rows columns].
  unfold aligned_rows.
  set (R := filter _ (filter (matches pp ev) rs) ++ filter _ (period_rows qq ev rs)).
  assert (HR : Forall (fun r => is_str (cell ev r) = true) R).
  { unfold R. apply Forall_app. split; apply Forall_forall; intros r Hr.
    - apply filter_In in Hr. destruct Hr as [Hr _].
      apply filter_In in Hr. destruct Hr as [_ Hr].
      eapply matches_is_str; eauto.
    - apply filter_In in Hr. destruct Hr as [Hr _].
      unfold period_rows in Hr.
      apply filter_In in Hr. destruct Hr as [Hr _].
      apply filter_In in Hr. destruct Hr as [Hr _].
      apply filter_In in Hr. destruct Hr as [_ Hr].
      eapply matches_is_str; eauto. }
  clearbody R.
  rewrite (@getitem_frame hdr _ ev object_ Hl). cbn [bind].
  rewrite series_apply_rows by assumption.
  cbn [bind]. rewrite setitem_rows.
  fold (with_sort_key pp ev).
  unfold sort_values. rewrite mapM_getitem. cbn [rows columns].
  unfold first_missing, sort_columns. cbn [find].
  destruct (lookup id_col (assign "Sort_Key" numeric hdr)) eqn:Hid'.
  2:{ exfalso. revert Hid'. apply lookup_assign_some. congruence. }
  rewrite lookup_assign_same.
  rewrite (@lookup_assign_other _ "Repeat Instance" "Sort_Key" numeric hdr)
    by discriminate.
  destruct (lookup "Repeat Instance" hdr) eqn:Hri; cbn [bind]; auto.
  unfold drop_column. cbn [rows columns]. rewrite lookup_assign_same.
  reflexivity.
Qed.

End Refinement.

Transparent key_fields.

(** ** The stable sort *)

Section StableSortFacts.
Variable A : Type.
Variable leb : A -> A -> bool.
Hypothesis leb_total : forall a b, leb a b = true \/ leb b a = true.
Hypothesis leb_trans : forall a b c, leb a b = true -> leb b c = true -> leb a c = true.

Let le (a b : A) : Prop := leb a b = true.

Lemma insert_perm x l : Permutation (x :: l) (insert leb x l).
Proof.
  induction l as [|y l IH]; simpl; auto.
  destruct (leb x y); auto.
  eapply perm_trans; [apply perm_swap|]. now apply perm_skip.
Qed.

Lemma stable_sort_perm l : Permutation l (stable_sort leb l).
Proof.
  induction l as [|x l IH]; simpl; auto.
  eapply perm_trans; [|apply insert_perm]. now apply perm_skip.
Qed.

Lemma stable_sort_In x l : In x (stable_sort leb l) <-> In x l.
Proof.
  split; apply Permutation_in;
    [apply Permutation_sym|]; apply stable_sort_perm.
Qed.

Lemma insert_sorted x l :
  StronglySorted le l -> StronglySorted le (insert leb x l).
Proof.
  induction 1 as [|y l Hs IH Hy]; simpl.
  - repeat constructor.
  - destruct (leb x y) eqn:E.
    + constructor; [now constructor|].
      constructor; auto.
      eapply Forall_impl; [|exact Hy]. intros z Hz. eapply leb_trans; eauto.
    + constructor; auto.
      assert (Hyx : le y x) by (destruct (leb_total x y); [congruence|auto]).
      eapply Permutation_Forall; [apply insert_perm|].
      constructor; auto.
Qed.

Lemma stable_sort_sorted l : StronglySorted le (stable_sort leb l).
Proof.
  induction l as [|x l IH]; simpl; [constructor|].
  now apply insert_sorted.
Qed.

Lemma insert_least x l : Forall (le x) l -> insert leb x l = x :: l.
Proof. destruct 1 as [|y l Hy _]; simpl; auto. now rewrite Hy. Qed.

(** Two insertions commute when one element is strictly below the other. *)
Lemma insert_insert x a l :
  leb x a = true -> leb a x = false ->
  insert leb a (insert leb x l) = insert leb x (insert leb a l).
Proof.
  intros Hxa Hax. induction l as [|y l IH]; simpl.
  - now rewrite Hax, Hxa.
  - destruct (leb x y) eqn:Exy; destruct (leb a y) eqn:Eay; simpl;
      rewrite ?Hax, ?Hxa, ?Exy, ?Eay; auto.
    + assert (leb a x = true); [|congruence].
      destruct (leb_total x y) as [H|H]; [congruence|].
      eapply leb_trans; eauto.
    + now rewrite IH.
Qed.

Lemma stable_sort_middle x l1 l2 :
  Forall (fun a => leb x a = true /\ leb a x = false) l1 ->
  stable_sort leb (l1 ++ x :: l2) = insert leb x (stable_sort leb (l1 ++ l2)).
Proof.
  induction 1 as [|a l1 [Hxa Hax] _ IH]; simpl; auto.
  rewrite IH. now apply insert_insert.
Qed.

(** Splitting a sorted list by a predicate whose two sides never tie and
    sorting the two parts one after the other gives the list back. *)
Lemma stable_sort_partition (f : A -> bool) l :
  StronglySorted le l ->
  (forall a b, In a l -> In b l ->
     f a = true -> f b = false -> leb b a = true -> leb a b = false) ->
  stable_sort leb (filter f l ++ filter (fun a => negb (f a)) l) = l.
Proof.
  intros Hs. induction Hs as [|x l Hs IH Hx]; intros Hsep; simpl; auto.
  assert (IH' : stable_sort leb (filter f l ++ filter (fun a => negb (f a)) l) = l)
    by (apply IH; intros a b Ha Hb; apply Hsep; now right).
  destruct (f x) eqn:Efx; simpl.
  - rewrite IH'. now apply insert_least.
  - rewrite stable_sort_middle.
    + rewrite IH'. now apply insert_least.
    + apply Forall_forall. intros a Ha. apply filter_In in Ha.
      destruct Ha as [Ha Hfa].
      rewrite Forall_forall in Hx. specialize (Hx a Ha).
      split; [exact Hx|]. apply (Hsep a x); auto; [now right|now left].
Qed.

Lemma sorted_nth l i j a b :
  StronglySorted le l -> (i < j)%nat ->
  nth_error l i = Some a -> nth_error l j = Some b -> le a b.
Proof.
  intros Hs. revert i j.
  induction Hs as [|x l Hs IH Hx]; intros i j Hij Ha Hb.
  - destruct i; discriminate.
  - destruct j as [|j]; [lia|]. simpl in Hb.
    destruct i as [|i]; simpl in Ha.
    + inversion Ha; subst. rewrite Forall_forall in Hx.
      apply Hx. eapply nth_error_In; eauto.
    + apply (IH i j); auto. lia.
Qed.
End StableSortFacts.

(** ** The order of [sort_values] *)

Lemma string_leb_iff s t :
  String.leb s t = true <-> s = t \/ OrderedTypeEx.String_as_OT.lt s t.
Proof.
  unfold String.leb.
  pose proof (OrderedTypeEx.String_as_OT.cmp_eq s t) as He.
  pose proof (OrderedTypeEx.String_as_OT.cmp_lt s t) as Hl.
  unfold OrderedTypeEx.String_as_OT.cmp in *.
  destruct (String.compare s t); split; intros H; auto; try discriminate.
  - left. now apply He.
  - right. now apply Hl.
  - destruct H as [H|H]; [apply He in H|apply Hl in H]; discriminate.
Qed.

Lemma string_leb_trans s t u :
  String.leb s t = true -> String.leb t u = true -> String.leb s u = true.
Proof.
  rewrite !string_leb_iff. intros [->|H1] [->|H2]; auto.
  right. eapply OrderedTypeEx.String_as_OT.lt_trans; eauto.
Qed.

Lemma string_leb_refl s : String.leb s s = true.
Proof. apply string_leb_iff. now left. Qed.

Lemma value_leb_total a b : value_leb a b = true \/ value_leb b a = true.
Proof.
  destruct a, b; simpl; auto.
  - apply String.leb_total.
  - destruct (Z.leb_spec n n0); auto. right. apply Z.leb_le. lia.
Qed.

Lemma value_leb_trans a b c :
  value_leb a b = true -> value_leb b c = true -> value_leb a c = true.
Proof.
  destruct a, b, c; simpl; auto; try discriminate.
  - apply string_leb_trans.
  - rewrite !Z.leb_le. lia.
Qed.

Lemma value_eqb_leb a b : value_eqb a b = true -> value_leb a b = true.
Proof.
  destruct a, b; simpl; try discriminate.
  - intros H. apply String.eqb_eq in H. subst. apply string_leb_refl.
  - intros H. apply Z.eqb_eq in H. subst. apply Z.leb_refl.
Qed.

Lemma value_eqb_sym a b : value_eqb a b = value_eqb b a.
Proof.
  destruct a, b; simpl; auto.
  - apply String.eqb_sym.
  - apply Z.eqb_sym.
Qed.

Lemma value_eqb_eq a b : value_eqb a b = true -> a = b.
Proof.
  destruct a, b; simpl; try discriminate.
  - intros H. apply String.eqb_eq in H. now subst.
  - intros H. apply Z.eqb_eq in H. now subst.
Qed.

Lemma row_leb_total by_ r1 r2 :
  row_leb by_ r1 r2 = true \/ row_leb by_ r2 r1 = true.
Proof.
  unfold row_leb, sort_key.
  induction by_ as [|c cs IH]; simpl; auto.
  destruct (value_leb_total (cell c r1) (cell c r2)) as [H|H]; rewrite H;
    destruct (value_leb (cell c r2) (cell c r1)) eqn:E;
    destruct (value_leb (cell c r1) (cell c r2)) eqn:E'; auto; discriminate.
Qed.

Lemma row_leb_trans by_ r1 r2 r3 :
  row_leb by_ r1 r2 = true -> row_leb by_ r2 r3 = true ->
  row_leb by_ r1 r3 = true.
Proof.
  unfold row_leb, sort_key.
  induction by_ as [|c cs IH]; simpl; auto.
  destruct (value_leb (cell c r1) (cell c r2)) eqn:E12; [|discriminate].
  destruct (value_leb (cell c r2) (cell c r3)) eqn:E23; [|intros; discriminate].
  rewrite (value_leb_trans _ _ _ E12 E23).
  destruct (value_leb (cell c r2) (cell c r1)) eqn:E21;
    destruct (value_leb (cell c r3) (cell c r2)) eqn:E32;
    destruct (value_leb (cell c r3) (cell c r1)) eqn:E31; auto; intros H1 H2;
    try (pose proof (value_leb_trans _ _ _ E31 E12); congruence);
    pose proof (value_leb_trans _ _ _ E23 E31); congruence.
Qed.

(** ** The rows of the result *)

Lemma key_field_not_sort_key c : In c key_fields -> "Sort_Key" <> c.
Proof.
  unfold key_fields. simpl.
  intros [H|[H|[H|[H|[H|[]]]]]]; subst c; discriminate.
Qed.

Lemma forallb_eq (A : Type) (f g : A -> bool) (l : list A) :
  (forall x, In x l -> f x = g x) -> forallb f l = forallb g l.
Proof.
  induction l as [|x l IH]; simpl; intros H; auto.
  rewrite (H x) by auto. rewrite IH; auto.
Qed.

Lemma lookup_remove_same (A : Type) (k : string) (l : list (string * A)) :
  lookup k (remove_key k l) = None.
Proof.
  induction l as [|[k' b] l IH]; simpl; auto.
  destruct (String.eqb k' k) eqn:E; simpl; auto. now rewrite E.
Qed.

Lemma assign_same (A : Type) (c : string) (a : A) l :
  lookup c l = Some a -> assign c a l = l.
Proof.
  induction l as [|[k b] l IH]; simpl; [discriminate|].
  destruct (String.eqb k c) eqn:E.
  - intros H. now inversion H.
  - intros H. now rewrite IH.
Qed.

Section ResultRows.

Variables pp qq id_col ev : string.
Hypothesis id_not_sort_key : id_col <> "Sort_Key".
Hypothesis ev_not_sort_key : ev <> "Sort_Key".
Variable rs : list Row.

Let valid := valid_ids pp qq id_col ev rs.

Lemma cell_out_row c x : "Sort_Key" <> c -> cell c (out_row pp ev x) = cell c x.
Proof.
  intros H. unfold out_row, with_sort_key.
  rewrite cell_remove_other by assumption. now apply cell_assign_other.
Qed.

Lemma matches_out_row p x : matches p ev (out_row pp ev x) = matches p ev x.
Proof. unfold matches. rewrite cell_out_row; auto. Qed.

Lemma all_null_out_row x : all_null (out_row pp ev x) = all_null x.
Proof.
  unfold all_null. apply forallb_eq. intros c Hc.
  rewrite cell_out_row; auto using key_field_not_sort_key.
Qed.

Lemma all_blank_out_row x : all_blank (out_row pp ev x) = all_blank x.
Proof.
  unfold all_blank. apply forallb_eq. intros c Hc.
  rewrite cell_out_row; auto using key_field_not_sort_key.
Qed.

Lemma aligned_rows_In r :
  In r (aligned_rows pp qq id_col ev rs) <->
  exists x, r = out_row pp ev x /\ has_id id_col valid x = true /\
            (In x (filter (matches pp ev) rs) \/ In x (period_rows qq ev rs)).
Proof.
  unfold aligned_rows. fold valid.
  rewrite in_map_iff. split.
  - intros [s [Hr Hs]]. apply stable_sort_In in Hs.
    apply in_map_iff in Hs. destruct Hs as [x [Hx Hin]]. subst s r.
    exists x. split; [reflexivity|].
    apply in_app_iff in Hin.
    destruct Hin as [H|H]; apply filter_In in H; destruct H as [H Hv]; auto.
  - intros [x [Hr [Hv Hin]]]. exists (with_sort_key pp ev x).
    split; [now subst r|].
    apply stable_sort_In, in_map. apply in_app_iff.
    destruct Hin as [H|H]; [left|right]; apply filter_In; auto.
Qed.

(** A valid id is the id of a profile row and of a kept period row, both of
    which are valid too. *)
Lemma valid_pair x :
  has_id id_col valid x = true ->
  exists p q,
    In p (filter (matches pp ev) rs) /\ In q (period_rows qq ev rs) /\
    value_eqb (cell id_col x) (cell id_col p) = true /\
    value_eqb (cell id_col x) (cell id_col q) = true /\
    has_id id_col valid p = true /\ has_id id_col valid q = true.
Proof.
  unfold has_id. intros H. apply existsb_exists in H.
  destruct H as [v [Hv Hxv]].
  pose proof (value_eqb_eq _ _ Hxv) as Ex.
  assert (Hvv : value_eqb v v = true) by (rewrite Ex in Hxv; exact Hxv).
  pose proof Hv as Hv0.
  unfold valid, valid_ids, intersection in Hv.
  apply filter_In in Hv. destruct Hv as [Hp Hq].
  apply in_map_iff in Hp. destruct Hp as [p [Ep Hp]].
  apply existsb_exists in Hq. destruct Hq as [u [Hu Hvu]].
  apply value_eqb_eq in Hvu. subst u.
  apply in_map_iff in Hu. destruct Hu as [q [Eq Hq]].
  exists p, q. rewrite Ep, Eq, Ex. repeat split; auto;
    apply existsb_exists; exists v; auto.
Qed.

(** Every row of the result has the id of a profile row of the result and of
    a period row of the result that passed lines 26 and 27. *)
Lemma aligned_rows_paired r :
  In r (aligned_rows pp qq id_col ev rs) ->
  exists r1 r2,
    In r1 (aligned_rows pp qq id_col ev rs) /\
    In r2 (aligned_rows pp qq id_col ev rs) /\
    same_id id_col r r1 = true /\ matches pp ev r1 = true /\
    same_id id_col r r2 = true /\ matches qq ev r2 = true /\
    kept_period r2 = true.
Proof.
  intros Hr. apply aligned_rows_In in Hr. destruct Hr as [x [Er [Hv _]]].
  destruct (valid_pair x Hv) as [p [q [Hp [Hq [Exp [Exq [Hvp Hvq]]]]]]].
  exists (out_row pp ev p), (out_row pp ev q). subst r. unfold same_id.
  rewrite !aligned_rows_In, !matches_out_row, !cell_out_row by auto.
  pose proof Hp as Hp'. apply filter_In in Hp'. destruct Hp' as [_ Hmp].
  pose proof Hq as Hq'. unfold period_rows in Hq'.
  apply filter_In in Hq'. destruct Hq' as [Hq' Hb].
  apply filter_In in Hq'. destruct Hq' as [Hq' Hn].
  apply filter_In in Hq'. destruct Hq' as [_ Hmq].
  repeat split; eauto.
  unfold kept_period. rewrite all_null_out_row, all_blank_out_row.
  now rewrite Hn, Hb.
Qed.

(** A row of the result is classified Profile, or is a period row that
    passed lines 26 and 27. *)
Lemma aligned_rows_class r :
  In r (aligned_rows pp qq id_col ev rs) ->
  matches pp ev r = true \/ (matches qq ev r = true /\ kept_period r = true).
Proof.
  intros Hr. apply aligned_rows_In in Hr. destruct Hr as [x [Er [_ Hin]]].
  subst r. rewrite !matches_out_row. unfold kept_period.
  rewrite all_null_out_row, all_blank_out_row.
  destruct Hin as [H|H].
  - left. apply filter_In in H. tauto.
  - right. unfold period_rows in H.
    apply filter_In in H. destruct H as [H Hb].
    apply filter_In in H. destruct H as [H Hn].
    apply filter_In in H. destruct H as [_ Hm].
    now rewrite Hm, Hn, Hb.
Qed.

End ResultRows.

(** ** What a successful call has gone through *)

Lemma align_rows_Ok df pp qq id_col ev df' out :
  clean_and_align_redcap_data_rows df pp qq id_col ev = (df', Ok out) ->
  let hdr := assign ev object_ (columns df) in
  let rs := map (lower_row ev) (rows df) in
  df' = mkFrame hdr rs /\
  (exists d, lookup ev (columns df) = Some d /\
             str_ok (mkSeries d (map (cell ev) (rows df))) = true) /\
  first_missing key_fields hdr = None /\
  keys_str_ok hdr (filter (fun r => negb (all_null r)) (filter (matches qq ev) rs))
    = true /\
  first_missing [id_col; "Repeat Instance"] hdr = None /\
  out = mkFrame (remove_key "Sort_Key" (assign "Sort_Key" numeric hdr))
                (aligned_rows pp qq id_col ev rs).
Proof.
  unfold clean_and_align_redcap_data_rows.
  destruct (lookup ev (columns df)) as [d|] eqn:Hev; [|discriminate].
  destruct (str_ok _) eqn:Hok; [|discriminate].
  destruct (first_missing key_fields _) eqn:Hk; [discriminate|].
  destruct (keys_str_ok _ _) eqn:Hs; [|discriminate].
  destruct (first_missing [id_col; _] _) eqn:Hi; [discriminate|].
  intros H. inversion H; subst. cbv zeta.
  repeat split; eauto.
Qed.

Section Ordering.

Variables pp id_col ev : string.
Hypothesis id_not_sort_key : id_col <> "Sort_Key".
Hypothesis ev_not_sort_key : ev <> "Sort_Key".

Let w := with_sort_key pp ev.

Lemma key_leb_same_head a b k1 k2 :
  value_eqb a b = true -> key_leb (a :: k1) (b :: k2) = key_leb k1 k2.
Proof.
  intros H. simpl. rewrite (value_eqb_leb _ _ H).
  rewrite value_eqb_sym in H. now rewrite (value_eqb_leb _ _ H).
Qed.

Lemma sort_key_with_sort_key x :
  sort_key (sort_columns id_col) (w x)
  = [cell id_col x; VNum (if matches pp ev x then 0 else 1);
     cell "Repeat Instance" x].
Proof.
  unfold sort_key, sort_columns, w, with_sort_key. simpl map.
  rewrite cell_assign_same.
  rewrite !cell_assign_other by (auto; discriminate). reflexivity.
Qed.

(** Among rows of one subject a Profile row never comes after a row that is
    not one. *)
Lemma same_id_profile_first x y :
  value_eqb (cell id_col x) (cell id_col y) = true ->
  matches pp ev x = false -> matches pp ev y = true ->
  row_leb (sort_columns id_col) (w x) (w y) = false.
Proof.
  intros Hid Hx Hy. unfold row_leb. rewrite !sort_key_with_sort_key.
  rewrite key_leb_same_head by assumption. now rewrite Hx, Hy.
Qed.

(** Among rows of one subject and one sort key the order is the one of the
    repeat instance. *)
Lemma same_id_same_group x y :
  value_eqb (cell id_col x) (cell id_col y) = true ->
  matches pp ev x = matches pp ev y ->
  row_leb (sort_columns id_col) (w x) (w y) = true ->
  value_leb (cell "Repeat Instance" x) (cell "Repeat Instance" y) = true.
Proof.
  intros Hid Hm. unfold row_leb. rewrite !sort_key_with_sort_key.
  rewrite key_leb_same_head by assumption. rewrite Hm.
  assert (E : forall n, key_leb [VNum n; cell "Repeat Instance" x]
                          [VNum n; cell "Repeat Instance" y]
                        = value_leb (cell "Repeat Instance" x)
                                    (cell "Repeat Instance" y)).
  { intros n. simpl. rewrite Z.leb_refl.
    destruct (value_leb _ _); auto. now destruct (value_leb _ _). }
  now rewrite E.
Qed.

Variables (qq : string) (rs : list Row).

Lemma aligned_rows_nth i r :
  nth_error (aligned_rows pp qq id_col ev rs) i = Some r ->
  exists x,
    r = out_row pp ev x /\
    nth_error
      (stable_sort (row_leb (sort_columns id_col))
         (map w
            (filter (has_id id_col (valid_ids pp qq id_col ev rs))
               (filter (matches pp ev) rs) ++
             filter (has_id id_col (valid_ids pp qq id_col ev rs))
               (period_rows qq ev rs)))) i = Some (w x).
Proof.
  unfold aligned_rows. rewrite nth_error_map.
  destruct (nth_error _ i) as [s|] eqn:E; [|discriminate].
  intros H. inversion H; subst r. clear H.
  assert (Hin : In s (stable_sort (row_leb (sort_columns id_col))
            (map w
               (filter (has_id id_col (valid_ids pp qq id_col ev rs))
                  (filter (matches pp ev) rs) ++
                filter (has_id id_col (valid_ids pp qq id_col ev rs))
                  (period_rows qq ev rs)))))
    by (eapply nth_error_In; eauto).
  apply stable_sort_In in Hin. apply in_map_iff in Hin.
  destruct Hin as [x [Hx _]]. exists x. subst s. split; auto.
Qed.

(** The order of the rows of one subject in the result. *)
Lemma aligned_rows_order i j r1 r2 :
  nth_error (aligned_rows pp qq id_col ev rs) i = Some r1 ->
  nth_error (aligned_rows pp qq id_col ev rs) j = Some r2 ->
  same_id id_col r1 r2 = true ->
  (matches pp ev r1 = true -> matches pp ev r2 = false -> (i < j)%nat) /\
  ((i < j)%nat -> matches pp ev r1 = matches pp ev r2 ->
   value_leb (cell "Repeat Instance" r1) (cell "Repeat Instance" r2) = true).
Proof.
  intros H1 H2 Hid.
  destruct (aligned_rows_nth _ H1) as [x [E1 N1]].
  destruct (aligned_rows_nth _ H2) as [y [E2 N2]].
  subst r1 r2. unfold same_id in Hid.
  rewrite !cell_out_row in Hid by auto.
  rewrite !matches_out_row by auto.
  rewrite !cell_out_row by discriminate.
  pose proof (@stable_sort_sorted Row (row_leb (sort_columns id_col))
                (row_leb_total (sort_columns id_col))
                (@row_leb_trans (sort_columns id_col))) as Hs.
  split.
  - intros Hx Hy.
    destruct (Nat.lt_trichotomy i j) as [H|[H|H]]; auto.
    + subst j. rewrite N1 in N2. inversion N2 as [E].
      assert (Em : matches pp ev (out_row pp ev x)
                   = matches pp ev (out_row pp ev y))
        by (unfold out_row; fold w; now rewrite E).
      rewrite !matches_out_row in Em by auto. congruence.
    + pose proof (@sorted_nth Row (row_leb (sort_columns id_col)) _ _ _ _ _
                    (Hs _) H N2 N1) as Hle. cbv beta in Hle.
      rewrite value_eqb_sym in Hid.
      rewrite (same_id_profile_first y x) in Hle by assumption.
      discriminate.
  - intros Hij Hm.
    pose proof (@sorted_nth Row (row_leb (sort_columns id_col)) _ _ _ _ _
                  (Hs _) Hij N1 N2) as Hle. cbv beta in Hle.
    eapply same_id_same_group; eauto.
Qed.

End Ordering.

(** ** Running the transformation on its own result *)

Lemma lower_ascii_idem c : lower_ascii (lower_ascii c) = lower_ascii c.
Proof. destruct c as [[] [] [] [] [] [] [] []]; reflexivity. Qed.

Lemma lower_idem s : lower (lower s) = lower s.
Proof.
  induction s as [|c s IH]; simpl; auto.
  now rewrite lower_ascii_idem, IH.
Qed.

Lemma str_map_lower_idem v : str_map lower (str_map lower v) = str_map lower v.
Proof. destruct v; simpl; auto. now rewrite lower_idem. Qed.

Lemma filter_all (A : Type) (f : A -> bool) (l : list A) :
  (forall x, In x l -> f x = true) -> filter f l = l.
Proof.
  induction l as [|x l IH]; simpl; intros H; auto.
  rewrite (H x) by auto. rewrite IH; auto.
Qed.

Lemma filter_eq (A : Type) (f g : A -> bool) (l : list A) :
  (forall x, In x l -> f x = g x) -> filter f l = filter g l.
Proof.
  induction l as [|x l IH]; simpl; intros H; auto.
  rewrite (H x) by auto. rewrite IH; auto.
Qed.

Lemma map_filter (A B : Type) (f : A -> B) (g : B -> bool) (l : list A) :
  map f (filter (fun x => g (f x)) l) = filter g (map f l).
Proof.
  induction l as [|x l IH]; simpl; auto.
  destruct (g (f x)); simpl; now rewrite IH.
Qed.

Lemma map_fixed (A : Type) (f : A -> A) (l : list A) :
  (forall x, In x l -> f x = x) -> map f l = l.
Proof.
  induction l as [|x l IH]; simpl; intros H; auto.
  rewrite (H x) by auto. rewrite IH; auto.
Qed.

Lemma sorted_map (A B : Type) (R : A -> A -> Prop) (R' : B -> B -> Prop)
      (f : A -> B) (l : list A) :
  (forall a b, In a l -> In b l -> R a b -> R' (f a) (f b)) ->
  StronglySorted R l -> StronglySorted R' (map f l).
Proof.
  intros H Hs. induction Hs as [|x l Hs IH Hx]; simpl; constructor.
  - apply IH. intros a b Ha Hb. apply H; now right.
  - apply Forall_forall. intros y Hy. apply in_map_iff in Hy.
    destruct Hy as [a [<- Ha]]. rewrite Forall_forall in Hx.
    apply H; [now left|now right|auto].
Qed.

Lemma lookup_strip (A : Type) (c : string) (a : A) l :
  "Sort_Key" <> c ->
  lookup c (remove_key "Sort_Key" (assign "Sort_Key" a l)) = lookup c l.
Proof.
  intros H. rewrite lookup_remove_other by assumption.
  now apply lookup_assign_other.
Qed.

Lemma first_missing_strip (A : Type) (cs : list string) (a : A) l :
  ~ In "Sort_Key" cs ->
  first_missing cs (remove_key "Sort_Key" (assign "Sort_Key" a l))
  = first_missing cs l.
Proof.
  unfold first_missing. induction cs as [|c cs IH]; simpl; intros H; auto.
  rewrite lookup_strip by (intros E; apply H; left; now symmetry).
  rewrite IH by tauto. reflexivity.
Qed.

Section Idempotence.

Variables pp qq id_col ev : string.
Hypothesis id_not_sort_key : id_col <> "Sort_Key".
Hypothesis ev_not_sort_key : ev <> "Sort_Key".
Variable rs : list Row.

Let O := aligned_rows pp qq id_col ev rs.
Let w := with_sort_key pp ev.

(** No row of the result is classified both Profile and Period. *)
Hypothesis no_dual :
  forall r, In r O -> matches pp ev r = true -> matches qq ev r = false.

Lemma result_period_rows : period_rows qq ev O = filter (fun r => negb (matches pp ev r)) O.
Proof.
  unfold period_rows.
  assert (Hk : forall r, In r (filter (matches qq ev) O) -> kept_period r = true).
  { intros r Hr. apply filter_In in Hr. destruct Hr as [Hr Hq].
    pose proof Hr as Hc. apply aligned_rows_class in Hc; [|assumption].
    destruct Hc as [Hp|[_ Hkp]]; auto.
    rewrite (no_dual _ Hr Hp) in Hq. discriminate. }
  rewrite (filter_all (fun r => negb (all_null r))).
  2:{ intros r Hr. apply Hk in Hr. unfold kept_period in Hr.
      apply andb_true_iff in Hr. tauto. }
  rewrite filter_all.
  2:{ intros r Hr. apply Hk in Hr. unfold kept_period in Hr.
      apply andb_true_iff in Hr. tauto. }
  apply filter_eq. intros r Hr.
  destruct (matches pp ev r) eqn:Hp; simpl.
  - now apply no_dual.
  - pose proof Hr as Hc. apply aligned_rows_class in Hc; [|assumption].
    destruct Hc as [Hp'|[Hq _]]; congruence.
Qed.

Lemma result_all_valid r :
  In r O -> has_id id_col (valid_ids pp qq id_col ev O) r = true.
Proof.
  intros Hr.
  pose proof Hr as Hc. apply aligned_rows_paired in Hc; [|assumption..].
  destruct Hc as [r1 [r2 [H1 [H2 [E1 [M1 [E2 [M2 K2]]]]]]]].
  fold O in H1, H2. unfold same_id in E1, E2.
  pose proof (value_eqb_eq _ _ E1) as X1.
  pose proof (value_eqb_eq _ _ E2) as X2.
  unfold has_id. apply existsb_exists. exists (cell id_col r).
  split; [|now rewrite X1 in E1 |- *].
  unfold valid_ids, intersection. apply filter_In. split.
  - rewrite X1. apply in_map. apply filter_In. auto.
  - apply existsb_exists. exists (cell id_col r2). split; auto.
    apply in_map. unfold period_rows.
    unfold kept_period in K2. apply andb_true_iff in K2.
    repeat (apply filter_In; split); tauto.
Qed.

Lemma result_rows_sorted :
  StronglySorted (fun a b => row_leb (sort_columns id_col) a b = true) (map w O).
Proof.
  unfold O, aligned_rows. rewrite map_map.
  set (R := _ ++ _).
  pose proof (@stable_sort_sorted Row (row_leb (sort_columns id_col))
                (row_leb_total (sort_columns id_col))
                (@row_leb_trans (sort_columns id_col)) (map w R)) as Hs.
  fold w.
  eapply sorted_map; [|exact Hs].
  intros a b Ha Hb. apply stable_sort_In in Ha, Hb.
  apply in_map_iff in Ha, Hb.
  destruct Ha as [x [<- _]]. destruct Hb as [y [<- _]].
  unfold row_leb.
  unfold w. rewrite !sort_key_with_sort_key by assumption.
  fold (out_row pp ev x). fold (out_row pp ev y).
  rewrite !matches_out_row by assumption.
  rewrite !cell_out_row by (auto; discriminate). auto.
Qed.

Lemma result_rows_separated a b :
  matches pp ev a = true -> matches pp ev b = false ->
  row_leb (sort_columns id_col) (w b) (w a) = true ->
  row_leb (sort_columns id_col) (w a) (w b) = false.
Proof.
  unfold row_leb, w. rewrite !sort_key_with_sort_key by assumption.
  intros -> ->. simpl.
  destruct (value_leb (cell id_col b) (cell id_col a)); [|discriminate].
  destruct (value_leb (cell id_col a) (cell id_col b)); auto.
Qed.

(** With no row classified twice, the rows of the result are a fixed point
    of lines 18 to 51. *)
Lemma aligned_rows_idem : aligned_rows pp qq id_col ev O = O.
Proof.
  unfold aligned_rows at 1.
  rewrite result_period_rows.
  rewrite !(filter_all (has_id id_col (valid_ids pp qq id_col ev O)))
    by (intros r Hr; apply filter_In in Hr; now apply result_all_valid).
  fold w. rewrite map_app.
  assert (Em : forall r, matches pp ev (w r) = matches pp ev r).
  { intros r. unfold matches, w, with_sort_key.
    rewrite cell_assign_other; auto. }
  rewrite (filter_eq (matches pp ev) (fun r => matches pp ev (w r))) by auto.
  rewrite (filter_eq (fun r => negb (matches pp ev r))
                     (fun r => negb (matches pp ev (w r))))
    by (intros; now rewrite Em).
  rewrite (map_filter w (matches pp ev)).
  rewrite (map_filter w (fun s => negb (matches pp ev s))).
  rewrite (@stable_sort_partition Row (row_leb (sort_columns id_col))
             (row_leb_total (sort_columns id_col))
             (@row_leb_trans (sort_columns id_col))).
  - rewrite map_map. apply map_fixed. intros r Hr.
    unfold w, with_sort_key. apply remove_assign_fresh.
    unfold O in Hr. apply aligned_rows_In in Hr; auto.
    destruct Hr as [x [-> _]]. apply lookup_remove_same.
  - apply result_rows_sorted.
  - intros a b Ha Hb. apply in_map_iff in Ha, Hb.
    destruct Ha as [x [<- _]]. destruct Hb as [y [<- _]].
    rewrite !Em. apply result_rows_separated.
Qed.

End Idempotence.

(** ** Text columns *)

Lemma re_literal_conforms : re_conforms re_literal.
Proof.
  intros p Hp. exists (contains p). unfold re_literal. rewrite Hp. auto.
Qed.

Lemma keys_str_ok_text hdr (rs : list Row) :
  (forall c, In c key_fields -> lookup c hdr = Some object_) ->
  (forall c r, In c key_fields -> In r rs -> is_num (cell c r) = false) ->
  keys_str_ok hdr rs = true.
Proof.
  intros Hh Hc. unfold keys_str_ok. destruct rs as [|r0 rs0]; auto.
  apply forallb_forall. intros c Hk. unfold column_of. rewrite (Hh c Hk).
  apply str_ok_text. apply Forall_forall. intros v Hv.
  apply in_map_iff in Hv. destruct Hv as [r [<- Hr]]. now apply Hc.
Qed.

Lemma text_column_spec df c :
  text_column df c = true ->
  lookup c (columns df) = Some object_ /\
  forall r, In r (rows df) -> is_num (cell c r) = false.
Proof.
  unfold text_column. destruct (lookup c (columns df)) as [[|]|]; try discriminate.
  intros H. split; auto. intros r Hr.
  rewrite forallb_forall in H. apply H in Hr. now destruct (is_num (cell c r)).
Qed.

Lemma cell_lower_row_num ev c r :
  is_num (cell c r) = false -> is_num (cell c (lower_row ev r)) = false.
Proof.
  intros H. destruct (String.eqb_spec ev c) as [->|Hne].
  - rewrite cell_lower_row. now destruct (cell c r).
  - unfold lower_row. now rewrite cell_assign_other.
Qed.

Lemma lookup_lowered_header (ev c : string) hdr :
  lookup c hdr = Some object_ -> lookup c (assign ev object_ hdr) = Some object_.
Proof.
  intros H. destruct (String.eqb_spec ev c) as [->|Hne].
  - apply lookup_assign_same.
  - now rewrite lookup_assign_other.
Qed.

Lemma first_missing_none (A : Type) cs (hdr : list (string * A)) :
  first_missing cs hdr = None <-> forall c, In c cs -> lookup c hdr <> None.
Proof.
  unfold first_missing. induction cs as [|c cs IH]; simpl.
  - split; [intros _ c []|auto].
  - destruct (lookup c hdr) eqn:E.
    + rewrite IH. split.
      * intros H c' [<-|Hc]; [congruence|auto].
      * intros H c' Hc. apply H. now right.
    + split; [discriminate|]. intros H. exfalso. apply (H c); auto.
Qed.

(** On a table with the columns the transformation reads and with text in the
    event and key-field columns the call returns a result. *)
Lemma align_rows_text_schema df pp qq id_col ev :
  text_schema df id_col ev = true ->
  exists out,
    clean_and_align_redcap_data_rows df pp qq id_col ev
    = (mkFrame (assign ev object_ (columns df)) (map (lower_row ev) (rows df)),
       Ok out).
Proof.
  unfold text_schema, has_column. intros H.
  apply andb_true_iff in H. destruct H as [H Hri].
  apply andb_true_iff in H. destruct H as [H Hid].
  apply andb_true_iff in H. destruct H as [Hev Hkeys].
  apply text_column_spec in Hev. destruct Hev as [Hev Hevc].
  rewrite forallb_forall in Hkeys.
  unfold clean_and_align_redcap_data_rows. rewrite Hev.
  rewrite str_ok_text.
  2:{ apply Forall_forall. intros v Hv. apply in_map_iff in Hv.
      destruct Hv as [r [<- Hr]]. auto. }
  assert (Hk : first_missing key_fields (assign ev object_ (columns df)) = None).
  { apply first_missing_none. intros c Hc.
    apply Hkeys, text_column_spec in Hc. destruct Hc as [Hc _].
    rewrite (lookup_lowered_header ev _ _ Hc). discriminate. }
  rewrite Hk.
  rewrite keys_str_ok_text.
  2:{ intros c Hc. apply Hkeys, text_column_spec in Hc.
      apply lookup_lowered_header. tauto. }
  2:{ intros c r Hc Hr. apply filter_In in Hr. destruct Hr as [Hr _].
      apply filter_In in Hr. destruct Hr as [Hr _].
      apply in_map_iff in Hr. destruct Hr as [x [<- Hx]].
      apply cell_lower_row_num.
      apply Hkeys, text_column_spec in Hc. destruct Hc as [_ Hc]. auto. }
  assert (Hi : first_missing [id_col; "Repeat Instance"]
                 (assign ev object_ (columns df)) = None).
  { apply first_missing_none. intros c [<-|[<-|[]]]; apply lookup_assign_some.
    - destruct (lookup id_col (columns df)); [discriminate|discriminate].
    - destruct (lookup "Repeat Instance" (columns df)); discriminate. }
  rewrite Hi. eauto.
Qed.

Lemma period_rows_In qq ev rs x :
  In x (period_rows qq ev rs) <->
  In x rs /\ matches qq ev x = true /\ kept_period x = true.
Proof.
  unfold period_rows, kept_period. rewrite !filter_In, andb_true_iff. tauto.
Qed.

Lemma aligned_rows_source pp qq id_col ev rs r :
  In r (aligned_rows pp qq id_col ev rs) ->
  exists x, r = out_row pp ev x /\ In x rs.
Proof.
  intros H. apply aligned_rows_In in H. destruct H as [x [-> [_ [H|H]]]].
  - apply filter_In in H. exists x. tauto.
  - apply period_rows_In in H. exists x. tauto.
Qed.

Lemma not_sort_key_in_keys : ~ In "Sort_Key" key_fields.
Proof. intros H. apply key_field_not_sort_key in H. now apply H. Qed.

(** A second run on the result of a run that classified no row twice: the
    only step that can go wrong is line 27. *)
Lemma align_rows_again df pp qq id_col ev df' out :
  id_col <> "Sort_Key" -> ev <> "Sort_Key" ->
  clean_and_align_redcap_data_rows df pp qq id_col ev = (df', Ok out) ->
  (forall r, In r (rows out) -> matches pp ev r = true -> matches qq ev r = false) ->
  clean_and_align_redcap_data_rows out pp qq id_col ev =
  (out,
   if keys_str_ok (columns out)
        (filter (fun r => negb (all_null r)) (filter (matches qq ev) (rows out)))
   then Ok out else Raise AttributeError).
Proof.
  intros Hid Hev H Hdual. apply align_rows_Ok in H. cbv zeta in H.
  destruct H as [_ [_ [Hk [_ [Hi Eo]]]]].
  set (hdr := assign ev object_ (columns df)) in *.
  set (rs := map (lower_row ev) (rows df)) in *.
  set (O := aligned_rows pp qq id_col ev rs) in *.
  set (hdr' := remove_key "Sort_Key" (assign "Sort_Key" numeric hdr)) in *.
  subst out. cbn [rows columns] in *.
  assert (Hl : lookup ev hdr' = Some object_).
  { unfold hdr'. rewrite lookup_strip by auto. apply lookup_assign_same. }
  assert (Hs : str_ok (mkSeries object_ (map (cell ev) O)) = true).
  { apply str_ok_text, Forall_forall. intros v Hv.
    apply in_map_iff in Hv. destruct Hv as [r [<- Hr]].
    apply aligned_rows_class in Hr; [|assumption].
    assert (Hstr : is_str (cell ev r) = true)
      by (destruct Hr as [Hr|[Hr _]]; eapply matches_is_str; eauto).
    now destruct (cell ev r). }
  assert (Hh : assign ev object_ hdr' = hdr') by now apply assign_same.
  assert (Hr : map (lower_row ev) O = O).
  { apply map_fixed. intros r Hr. apply aligned_rows_source in Hr.
    destruct Hr as [x [-> Hx]]. apply in_map_iff in Hx.
    destruct Hx as [x0 [<- _]].
    unfold lower_row at 1. rewrite cell_out_row by auto.
    rewrite cell_lower_row, str_map_lower_idem.
    apply assign_same. unfold out_row, with_sort_key.
    rewrite lookup_strip by auto. apply lookup_assign_same. }
  assert (Hk' : first_missing key_fields hdr' = None).
  { unfold hdr'. rewrite first_missing_strip by apply not_sort_key_in_keys.
    exact Hk. }
  assert (Hi' : first_missing [id_col; "Repeat Instance"] hdr' = None).
  { unfold hdr'. rewrite first_missing_strip; [exact Hi|].
    simpl. intros [E|[E|[]]]; [congruence|discriminate]. }
  unfold clean_and_align_redcap_data_rows. cbn [rows columns].
  rewrite Hl, Hs, Hh, Hr, Hk'.
  destruct (keys_str_ok hdr' _); auto.
  rewrite Hi'. f_equal. f_equal. f_equal.
  - apply remove_assign_fresh. apply lookup_remove_same.
  - now apply aligned_rows_idem.
Qed.

(** ** Rows without an event *)





Lemma result_keys_text df pp qq id_col ev (rs : list Row) :
  forallb (text_column df) key_fields = true ->
  (forall r, In r rs ->
     In r (aligned_rows pp qq id_col ev (map (lower_row ev) (rows df)))) ->
  keys_str_ok
    (remove_key "Sort_Key"
       (assign "Sort_Key" numeric (assign ev object_ (columns df)))) rs = true.
Proof.
  intros Hk Hrs. rewrite forallb_forall in Hk. apply keys_str_ok_text.
  - intros c Hc. rewrite lookup_strip by now apply key_field_not_sort_key.
    apply lookup_lowered_header. apply Hk, text_column_spec in Hc. tauto.
  - intros c r Hc Hr. apply Hrs, aligned_rows_source in Hr.
    destruct Hr as [x [-> Hx]].
    rewrite cell_out_row by now apply key_field_not_sort_key.
    apply in_map_iff in Hx. destruct Hx as [x0 [<- Hx0]].
    apply cell_lower_row_num.
    apply Hk, text_column_spec in Hc. destruct Hc as [_ Hc]. auto.
Qed.

Lemma cell_lower_row_other ev c r : ev <> c -> cell c (lower_row ev r) = cell c r.
Proof. intros H. unfold lower_row. now apply cell_assign_other. Qed.

(** * The claims of the specification *)

Section Claims.

Variable re_compile : string -> option (string -> bool).
Hypothesis re_ok : re_conforms re_compile.

(** C1.  The concrete scenario.  The Period row of id 2 has the empty text
    as title and no other key field; line 26 keeps it because the title is
    not missing, line 27 keeps it because the other four fields are not
    text.  The call returns the rows of id 1 and of id 2.  On the same rows
    as [read_csv] types them the call raises AttributeError at line 27. *)
Theorem scenario_keeps_blank_period :
  snd (clean_and_align_redcap_data re_compile scenario
         "profile" "period" "Record ID" "Event Name")
  = Ok (mkFrame header
          [mk_row 1 (VStr "profile") 1 VNaN VNaN;
           mk_row 1 (VStr "period") 1 (VStr "Paper A") VNaN;
           mk_row 2 (VStr "profile") 1 VNaN VNaN;
           mk_row 2 (VStr "period") 1 (VStr EmptyString) VNaN]) /\
  snd (clean_and_align_redcap_data re_compile scenario_csv
         "profile" "period" "Record ID" "Event Name")
  = Raise AttributeError.
Proof. rewrite !align_rows_eq by auto. split; vm_compute; reflexivity. Qed.

(** C2.  The pairing invariant fails on a subject whose only period row has
    a whitespace-only title and no other key field: both of its rows are
    returned, and none of them is a Period row with a key field that is not
    empty. *)
Theorem pairing_broken_by_mixed_blank :
  snd (clean_and_align_redcap_data re_compile mixed_blank
         "profile" "period" "Record ID" "Event Name")
  = Ok (mkFrame header
          [mk_row 1 (VStr "profile") 1 VNaN VNaN;
           mk_row 1 (VStr "period") 1 (VStr "  ") VNaN]) /\
  pairing_holds "profile" "period" "Record ID" "Event Name"
    [mk_row 1 (VStr "profile") 1 VNaN VNaN;
     mk_row 1 (VStr "period") 1 (VStr "  ") VNaN] = false.
Proof.
  rewrite align_rows_eq by auto. split; vm_compute; reflexivity.
Qed.


(** C4, amended.  A row that is classified Period and not Profile never
    appears in the result when its five key fields are all missing, nor when
    they are all whitespace-only text. *)
Theorem blank_period_rows_excluded
    (df out : DataFrame) (pp qq id_col ev : string) (r : Row) :
  plain_pattern pp = true -> plain_pattern qq = true ->
  ev <> "Sort_Key" ->
  snd (clean_and_align_redcap_data re_compile df pp qq id_col ev) = Ok out ->
  In r (rows out) ->
  matches qq ev r = true -> matches pp ev r = false ->
  all_null r = false /\ all_blank r = false.
Proof.
  intros Hpp Hqq Hev Hres Hr Hq Hp.
  rewrite align_rows_eq in Hres by auto.
  destruct (clean_and_align_redcap_data_rows df pp qq id_col ev)
    as [df' res] eqn:E.
  simpl in Hres. subst res. apply align_rows_Ok in E. cbv zeta in E.
  destruct E as [_ [_ [_ [_ [_ Eo]]]]]. subst out. cbn [rows] in *.
  apply aligned_rows_class in Hr; [|assumption].
  destruct Hr as [Hr|[_ Hk]]; [congruence|].
  unfold kept_period in Hk. apply andb_true_iff in Hk.
  destruct Hk as [Hn Hb]. split.
  - now destruct (all_null r).
  - now destruct (all_blank r).
Qed.

(** C5, amended.  The call overwrites the event column of the caller's
    table with its lower-cased values (line 15: text in lower case, any other
    value missing) and changes nothing else of it: same rows in the same
    order, every other field as it was.  The table is left as it was only
    when the event column is missing or [.str] is not available on it, and
    the call then raises. *)
Theorem caller_table_after_align (df : DataFrame) (pp qq id_col ev : string) :
  fst (clean_and_align_redcap_data re_compile df pp qq id_col ev)
  = match lookup ev (columns df) with
    | Some d =>
        if str_ok (mkSeries d (map (cell ev) (rows df)))
        then mkFrame (assign ev object_ (columns df))
                     (map (lower_row ev) (rows df))
        else df
    | None => df
    end /\
  List.length
    (rows (fst (clean_and_align_redcap_data re_compile df pp qq id_col ev)))
  = List.length (rows df) /\
  (forall i r,
     nth_error (rows df) i = Some r ->
     exists r',
       nth_error
         (rows (fst (clean_and_align_redcap_data re_compile df pp qq id_col ev)))
         i = Some r' /\
       (forall c, ev <> c -> cell c r' = cell c r) /\
       (cell ev r' = cell ev r \/ cell ev r' = str_map lower (cell ev r))).
Proof.
  assert (E : fst (clean_and_align_redcap_data re_compile df pp qq id_col ev)
              = match lookup ev (columns df) with
                | Some d =>
                    if str_ok (mkSeries d (map (cell ev) (rows df)))
                    then mkFrame (assign ev object_ (columns df))
                                 (map (lower_row ev) (rows df))
                    else df
                | None => df
                end).
  { destruct df as [hdr rs]. unfold clean_and_align_redcap_data, getitem.
    cbn [rows columns]. destruct (lookup ev hdr) as [d|]; cbn [bind fst]; auto.
    unfold str_lower, str_accessor.
    destruct (str_ok _); cbn [bind fst s_values]; auto.
    rewrite map_map. apply setitem_rows. }
  rewrite E. split; [reflexivity|].
  assert (Hsame : forall i r, nth_error (rows df) i = Some r ->
            exists r', nth_error (rows df) i = Some r' /\
              (forall c, ev <> c -> cell c r' = cell c r) /\
              (cell ev r' = cell ev r \/ cell ev r' = str_map lower (cell ev r)))
    by (intros i r Hr; exists r; auto).
  destruct (lookup ev (columns df)) as [d|]; [|now split].
  destruct (str_ok _); [|now split].
  cbn [rows]. split; [apply length_map|].
  intros i r Hr. exists (lower_row ev r). rewrite nth_error_map, Hr.
  repeat split.
  - intros c Hc. now apply cell_lower_row_other.
  - right. apply cell_lower_row.
Qed.

(** C6, amended.  An empty pattern is not refused: when one of the patterns
    is the empty string, the call returns a result on every table that has
    the columns it reads and text in its event and key-field columns; the
    empty pattern matches every row whose event is text. *)
Theorem empty_pattern_returns (df : DataFrame) (pp qq id_col ev : string) :
  pp = EmptyString \/ qq = EmptyString ->
  plain_pattern pp = true -> plain_pattern qq = true ->
  text_schema df id_col ev = true ->
  (exists out,
     snd (clean_and_align_redcap_data re_compile df pp qq id_col ev) = Ok out) /\
  (forall r, matches EmptyString ev r = is_str (cell ev r)).
Proof.
  intros _ Hpp Hqq Hs. split.
  - rewrite align_rows_eq by auto.
    destruct (align_rows_text_schema df pp qq id_col ev Hs) as [out E].
    exists out. now rewrite E.
  - intros r. unfold matches. destruct (cell ev r); auto. apply contains_empty.
Qed.

(** C7.  A table without rows that has the columns the call reads, the
    event column being an object column, gives a result without rows. *)
Theorem empty_table_returns_empty (df : DataFrame) (pp qq id_col ev : string) :
  plain_pattern pp = true -> plain_pattern qq = true ->
  rows df = [] ->
  lookup ev (columns df) = Some object_ ->
  first_missing (id_col :: "Repeat Instance" :: key_fields) (columns df) = None ->
  exists out,
    snd (clean_and_align_redcap_data re_compile df pp qq id_col ev) = Ok out /\
    rows out = [].
Proof.
  intros Hpp Hqq Hrows Hev Hcols. rewrite align_rows_eq by auto.
  rewrite first_missing_none in Hcols.
  unfold clean_and_align_redcap_data_rows. rewrite Hev, Hrows. cbn [map].
  change (str_ok (mkSeries object_ [])) with true. cbv iota. cbn [snd filter].
  assert (Hk : first_missing key_fields (assign ev object_ (columns df)) = None).
  { apply first_missing_none. intros c Hc. apply lookup_assign_some.
    apply Hcols. now do 2 right. }
  assert (Hi : first_missing [id_col; "Repeat Instance"]
                 (assign ev object_ (columns df)) = None).
  { apply first_missing_none. intros c [<-|[<-|[]]]; apply lookup_assign_some;
      apply Hcols; simpl; auto. }
  rewrite Hk, Hi. cbn [keys_str_ok]. eexists. split; reflexivity.
Qed.

(** C8.  A period row with a year in a numeric [Publication Year] column:
    line 27 asks for [.str] on that column and the call raises
    AttributeError. *)
Theorem numeric_key_column_raises :
  snd (clean_and_align_redcap_data re_compile numeric_year
         "profile" "period" "Record ID" "Event Name")
  = Raise AttributeError.
Proof. rewrite align_rows_eq by auto. vm_compute. reflexivity. Qed.

(** C9, amended.  When no row of the result of a call is classified both
    Profile and Period, a second call on that result, with the same
    parameters, returns it unchanged or raises AttributeError at line 27
    (a key-field column holds no text in the Period rows that are left); it
    returns it unchanged whenever the key-field columns of the table are
    text columns.  The second call does not change the table it is given. *)
Theorem align_idempotent_without_dual
    (df out : DataFrame) (pp qq id_col ev : string) :
  plain_pattern pp = true -> plain_pattern qq = true ->
  id_col <> "Sort_Key" -> ev <> "Sort_Key" ->
  snd (clean_and_align_redcap_data re_compile df pp qq id_col ev) = Ok out ->
  (forall r, In r (rows out) ->
     matches pp ev r = true -> matches qq ev r = false) ->
  (clean_and_align_redcap_data re_compile out pp qq id_col ev = (out, Ok out) \/
   clean_and_align_redcap_data re_compile out pp qq id_col ev
   = (out, Raise AttributeError)) /\
  (forallb (text_column df) key_fields = true ->
   clean_and_align_redcap_data re_compile out pp qq id_col ev = (out, Ok out)).
Proof.
  intros Hpp Hqq Hid Hev Hres Hdual.
  rewrite align_rows_eq in Hres by auto. rewrite !align_rows_eq by auto.
  destruct (clean_and_align_redcap_data_rows df pp qq id_col ev)
    as [df' res] eqn:E.
  simpl in Hres. subst res.
  rewrite (@align_rows_again df pp qq id_col ev df' out Hid Hev E Hdual).
  split.
  - destruct (keys_str_ok _ _); auto.
  - intros Hk. apply align_rows_Ok in E. cbv zeta in E.
    destruct E as [_ [_ [_ [_ [_ Eo]]]]]. subst out. cbn [rows columns].
    rewrite (result_keys_text df pp qq id_col ev); auto.
    intros r Hr. apply filter_In in Hr. destruct Hr as [Hr _].
    apply filter_In in Hr. tauto.
Qed.


End Claims.

(** ** Counterexamples to the claims as the specification states them

    They are run with [re_literal]; the patterns have no metacharacter, so
    every engine that conforms gives the same result. *)


(** C4 as stated fails: a row that both patterns match and whose key fields
    are all missing is returned among the Profile rows of its subject. *)
Lemma blank_dual_row_in_result :
  snd (clean_and_align_redcap_data re_literal dual_blank
         "profile" "period" "Record ID" "Event Name")
  = Ok (mkFrame header
          [mk_row 1 (VStr "profile period") 1 VNaN VNaN;
           mk_row 1 (VStr "period") 1 (VStr "Paper") VNaN]) /\
  matches "period" "Event Name" (mk_row 1 (VStr "profile period") 1 VNaN VNaN)
  = true /\
  has_key_data (mk_row 1 (VStr "profile period") 1 VNaN VNaN) = false.
Proof. repeat split; vm_compute; reflexivity. Qed.

(** C5 as stated fails: after the call the events of the caller's table are
    in lower case. *)
Lemma caller_table_lowercased :
  map (cell "Event Name") (rows scenario)
  = [VStr "Profile"; VStr "Period"; VStr "Profile"; VStr "Period"; VStr "Period"] /\
  map (cell "Event Name")
      (rows (fst (clean_and_align_redcap_data re_literal scenario
                    "profile" "period" "Record ID" "Event Name")))
  = [VStr "profile"; VStr "period"; VStr "profile"; VStr "period"; VStr "period"].
Proof. split; vm_compute; reflexivity. Qed.

(** C6 as stated fails: with an empty profile pattern the call returns a
    result; every row with a text event counts as a Profile row. *)
Lemma empty_pattern_accepted :
  snd (clean_and_align_redcap_data re_literal mixed_blank
         EmptyString "period" "Record ID" "Event Name")
  = Ok (mkFrame header
          [mk_row 1 (VStr "profile") 1 VNaN VNaN;
           mk_row 1 (VStr "period") 1 (VStr "  ") VNaN;
           mk_row 1 (VStr "period") 1 (VStr "  ") VNaN]).
Proof. vm_compute. reflexivity. Qed.

(** C9 as stated fails: the result of a call on a row that both patterns
    match holds the row twice and satisfies the pairing invariant; the call on
    that result returns the row four times. *)
Lemma dual_row_not_idempotent :
  snd (clean_and_align_redcap_data re_literal dual_single
         "profile" "period" "Record ID" "Event Name")
  = Ok (mkFrame header
          [mk_row 1 (VStr "profile period") 1 (VStr "Paper") VNaN;
           mk_row 1 (VStr "profile period") 1 (VStr "Paper") VNaN]) /\
  pairing_holds "profile" "period" "Record ID" "Event Name"
    [mk_row 1 (VStr "profile period") 1 (VStr "Paper") VNaN;
     mk_row 1 (VStr "profile period") 1 (VStr "Paper") VNaN] = true /\
  snd (clean_and_align_redcap_data re_literal
         (mkFrame header
            [mk_row 1 (VStr "profile period") 1 (VStr "Paper") VNaN;
             mk_row 1 (VStr "profile period") 1 (VStr "Paper") VNaN])
         "profile" "period" "Record ID" "Event Name")
  = Ok (mkFrame header
          [mk_row 1 (VStr "profile period") 1 (VStr "Paper") VNaN;
           mk_row 1 (VStr "profile period") 1 (VStr "Paper") VNaN;
           mk_row 1 (VStr "profile period") 1 (VStr "Paper") VNaN;
           mk_row 1 (VStr "profile period") 1 (VStr "Paper") VNaN]).
Proof. repeat split; vm_compute; reflexivity. Qed.

(** ** The theorems at concrete tables *)

Lemma scenario_keeps_blank_period_witness :
  snd (clean_and_align_redcap_data re_literal scenario
         "profile" "period" "Record ID" "Event Name")
  = Ok (mkFrame header
          [mk_row 1 (VStr "profile") 1 VNaN VNaN;
           mk_row 1 (VStr "period") 1 (VStr "Paper A") VNaN;
           mk_row 2 (VStr "profile") 1 VNaN VNaN;
           mk_row 2 (VStr "period") 1 (VStr EmptyString) VNaN]) /\
  snd (clean_and_align_redcap_data re_literal scenario_csv
         "profile" "period" "Record ID" "Event Name")
  = Raise AttributeError.
Proof. apply (@scenario_keeps_blank_period re_literal re_literal_conforms). Defined.

Lemma pairing_broken_by_mixed_blank_witness :
  snd (clean_and_align_redcap_data re_literal mixed_blank
         "profile" "period" "Record ID" "Event Name")
  = Ok (mkFrame header
          [mk_row 1 (VStr "profile") 1 VNaN VNaN;
           mk_row 1 (VStr "period") 1 (VStr "  ") VNaN]) /\
  pairing_holds "profile" "period" "Record ID" "Event Name"
    [mk_row 1 (VStr "profile") 1 VNaN VNaN;
     mk_row 1 (VStr "period") 1 (VStr "  ") VNaN] = false.
Proof. apply (@pairing_broken_by_mixed_blank re_literal re_literal_conforms). Defined.

Lemma paired_no_dual (r : Row) :
  In r (rows paired_result) ->
  matches "profile" "Event Name" r = true ->
  matches "period" "Event Name" r = false.
Proof.
  intros [<-|[<-|[<-|[]]]]; vm_compute; intros H; congruence.
Qed.


Lemma blank_period_rows_excluded_witness :
  all_null (mk_row 1 (VStr "period") 1 (VStr "Paper A") VNaN) = false /\
  all_blank (mk_row 1 (VStr "period") 1 (VStr "Paper A") VNaN) = false.
Proof.
  apply (@blank_period_rows_excluded re_literal re_literal_conforms
           paired paired_result "profile" "period" "Record ID" "Event Name").
  - reflexivity.
  - reflexivity.
  - discriminate.
  - vm_compute. reflexivity.
  - simpl. auto.
  - reflexivity.
  - reflexivity.
Defined.

Lemma empty_pattern_returns_witness :
  (exists out,
     snd (clean_and_align_redcap_data re_literal paired
            EmptyString "period" "Record ID" "Event Name") = Ok out) /\
  (forall r, matches EmptyString "Event Name" r = is_str (cell "Event Name" r)).
Proof.
  apply (@empty_pattern_returns re_literal re_literal_conforms).
  - left. reflexivity.
  - reflexivity.
  - reflexivity.
  - vm_compute. reflexivity.
Defined.

Lemma empty_table_returns_empty_witness :
  exists out,
    snd (clean_and_align_redcap_data re_literal empty_table
           "profile" "period" "Record ID" "Event Name") = Ok out /\
    rows out = [].
Proof.
  apply (@empty_table_returns_empty re_literal re_literal_conforms).
  - reflexivity.
  - reflexivity.
  - reflexivity.
  - reflexivity.
  - vm_compute. reflexivity.
Defined.

Lemma numeric_key_column_raises_witness :
  snd (clean_and_align_redcap_data re_literal numeric_year
         "profile" "period" "Record ID" "Event Name")
  = Raise AttributeError.
Proof. apply (@numeric_key_column_raises re_literal re_literal_conforms). Defined.

Lemma align_idempotent_without_dual_witness :
  (clean_and_align_redcap_data re_literal paired_result
     "profile" "period" "Record ID" "Event Name"
   = (paired_result, Ok paired_result) \/
   clean_and_align_redcap_data re_literal paired_result
     "profile" "period" "Record ID" "Event Name"
   = (paired_result, Raise AttributeError)) /\
  (forallb (text_column paired) key_fields = true ->
   clean_and_align_redcap_data re_literal paired_result
     "profile" "period" "Record ID" "Event Name"
   = (paired_result, Ok paired_result)).
Proof.
  apply (@align_idempotent_without_dual re_literal re_literal_conforms paired).
  - reflexivity.
  - reflexivity.
  - discriminate.
  - discriminate.
  - vm_compute. reflexivity.
  - exact paired_no_dual.
Defined.


(** * Further properties of the code *)

(** ** When the call returns and what it raises *)

Lemma first_missing_some (A : Type) cs (hdr : list (string * A)) c :
  first_missing cs hdr = Some c -> In c cs /\ lookup c hdr = None.
Proof.
  unfold first_missing. intros H. apply find_some in H. destruct H as [Hin H].
  split; auto. now destruct (lookup c hdr).
Qed.

Lemma lookup_assign_none (A : Type) (c k : string) (a : A) l :
  lookup c (assign k a l) = None -> lookup c l = None.
Proof.
  intros H. destruct (lookup c l) eqn:E; auto.
  exfalso. revert H. apply lookup_assign_some. congruence.
Qed.

Lemma has_columns_lowered hdr rs ev cs :
  lookup ev hdr <> None ->
  forallb (has_column (mkFrame hdr rs)) cs = true <->
  first_missing cs (assign ev object_ hdr) = None.
Proof.
  intros Hev. rewrite first_missing_none, forallb_forall.
  unfold has_column. cbn [columns].
  split; intros H c Hc; specialize (H c Hc).
  - apply lookup_assign_some. now destruct (lookup c hdr).
  - destruct (lookup c hdr) eqn:E; auto. exfalso. apply H.
    destruct (String.eqb_spec ev c) as [->|Hne]; [congruence|].
    now rewrite lookup_assign_other.
Qed.

Section Outcome.

Variable re_compile : string -> option (string -> bool).
Hypothesis re_ok : re_conforms re_compile.

Lemma align_Ok_frame df pp qq id_col ev out :
  plain_pattern pp = true -> plain_pattern qq = true ->
  snd (clean_and_align_redcap_data re_compile df pp qq id_col ev) = Ok out ->
  out = mkFrame
          (remove_key "Sort_Key"
             (assign "Sort_Key" numeric (assign ev object_ (columns df))))
          (aligned_rows pp qq id_col ev (map (lower_row ev) (rows df))).
Proof.
  intros Hpp Hqq H. rewrite align_rows_eq in H by auto.
  destruct (clean_and_align_redcap_data_rows df pp qq id_col ev)
    as [df' res] eqn:E.
  simpl in H. subst res. apply align_rows_Ok in E. cbv zeta in E. tauto.
Qed.

(** The call returns a result exactly on the tables that [can_align]
    describes: the columns it reads exist, and [.str] is available on the
    event column and, when line 26 leaves period rows, on the key-field
    columns of these rows. *)
Theorem align_returns_iff (df : DataFrame) (pp qq id_col ev : string) :
  plain_pattern pp = true -> plain_pattern qq = true ->
  (exists out,
     snd (clean_and_align_redcap_data re_compile df pp qq id_col ev) = Ok out)
  <-> can_align df qq id_col ev = true.
Proof.
  intros Hpp Hqq. rewrite align_rows_eq by auto.
  destruct df as [hdr rs].
  unfold clean_and_align_redcap_data_rows, can_align. cbn [rows columns].
  destruct (lookup ev hdr) as [d|] eqn:Hev.
  2:{ cbn [snd]. split; [intros [out H]|intros H]; discriminate. }
  destruct (str_ok _).
  2:{ cbn [snd]. split; [intros [out H]|intros H]; discriminate. }
  cbn [snd andb]. rewrite forallb_app.
  assert (Hne : lookup ev hdr <> None) by congruence.
  pose proof (@has_columns_lowered hdr rs ev key_fields Hne) as Hk.
  pose proof (@has_columns_lowered hdr rs ev [id_col; "Repeat Instance"] Hne) as Hi.
  destruct (first_missing key_fields (assign ev object_ hdr)) eqn:Fk.
  { destruct (forallb (has_column (mkFrame hdr rs)) key_fields);
      [destruct Hk as [Hk _]; specialize (Hk eq_refl); discriminate|].
    split; [intros [out H]|intros H]; discriminate. }
  destruct Hk as [_ Hk]. rewrite (Hk eq_refl). cbn [andb].
  destruct (keys_str_ok _ _).
  2:{ rewrite andb_false_r. split; [intros [out H]|intros H]; discriminate. }
  rewrite andb_true_r.
  destruct (first_missing [id_col; "Repeat Instance"] (assign ev object_ hdr))
    eqn:Fi.
  { destruct (forallb (has_column (mkFrame hdr rs)) [id_col; "Repeat Instance"]);
      [destruct Hi as [Hi _]; specialize (Hi eq_refl); discriminate|].
    split; [intros [out H]|intros H]; discriminate. }
  destruct Hi as [_ Hi]. rewrite (Hi eq_refl). split; eauto.
Qed.

(** The call raises nothing but AttributeError and the KeyError of a column
    that it reads and that the table does not have; in particular the lambda
    of line 42 never meets an event that is not text. *)
Theorem align_raises_only (df : DataFrame) (pp qq id_col ev : string) (e : exn) :
  plain_pattern pp = true -> plain_pattern qq = true ->
  snd (clean_and_align_redcap_data re_compile df pp qq id_col ev) = Raise e ->
  e = AttributeError \/
  exists c, e = KeyError c /\
            In c (ev :: key_fields ++ [id_col; "Repeat Instance"]) /\
            has_column df c = false.
Proof.
  intros Hpp Hqq. rewrite align_rows_eq by auto.
  unfold clean_and_align_redcap_data_rows, has_column.
  destruct (lookup ev (columns df)) as [d|] eqn:Hev.
  2:{ cbn [snd]. intros H. inversion H. right. exists ev.
      rewrite Hev. repeat split. now left. }
  destruct (str_ok _); [|cbn [snd]; intros H; inversion H; now left].
  cbn [snd].
  destruct (first_missing key_fields _) as [c|] eqn:Fk.
  { intros H. inversion H. right. exists c.
    apply first_missing_some in Fk. destruct Fk as [Hin Hc].
    apply lookup_assign_none in Hc. rewrite Hc. repeat split.
    right. apply in_or_app. now left. }
  destruct (keys_str_ok _ _); [|intros H; inversion H; now left].
  destruct (first_missing [id_col; _] _) as [c|] eqn:Fi; [|discriminate].
  intros H. inversion H. right. exists c.
  apply first_missing_some in Fi. destruct Fi as [Hin Hc].
  apply lookup_assign_none in Hc. rewrite Hc. repeat split.
  right. apply in_or_app. now right.
Qed.

End Outcome.

(** ** Where the rows of the result come from *)

Lemma remove_assign (A : Type) (k : string) (a : A) l :
  remove_key k (assign k a l) = remove_key k l.
Proof.
  induction l as [|[k' b] l IH]; simpl.
  - now rewrite String.eqb_refl.
  - destruct (String.eqb k' k) eqn:E; simpl; rewrite E; auto.
    now rewrite IH.
Qed.

Lemma out_row_remove pp ev x : out_row pp ev x = remove_key "Sort_Key" x.
Proof. unfold out_row, with_sort_key. apply remove_assign. Qed.


Lemma filter_length_le (A : Type) (f : A -> bool) (l : list A) :
  (List.length (filter f l) <= List.length l)%nat.
Proof. induction l as [|x l IH]; simpl; auto. destruct (f x); simpl; lia. Qed.

Lemma filter_exclusive_length (A : Type) (f g : A -> bool) (l : list A) :
  (forall x, In x l -> f x = true -> g x = false) ->
  (List.length (filter f l) + List.length (filter g l) <= List.length l)%nat.
Proof.
  induction l as [|x l IH]; simpl; intros H; auto.
  assert (IH' : (List.length (filter f l) + List.length (filter g l)
                 <= List.length l)%nat) by (apply IH; intros; apply H; auto).
  destruct (f x) eqn:Ef; simpl.
  - rewrite (H x) by auto. lia.
  - destruct (g x); simpl; lia.
Qed.

Lemma aligned_rows_length pp qq id_col ev rs :
  List.length (aligned_rows pp qq id_col ev rs)
  = (List.length (filter (has_id id_col (valid_ids pp qq id_col ev rs))
                    (filter (matches pp ev) rs))
     + List.length (filter (has_id id_col (valid_ids pp qq id_col ev rs))
                      (period_rows qq ev rs)))%nat.
Proof.
  unfold aligned_rows. rewrite length_map.
  rewrite <- (Permutation_length (stable_sort_perm _ _)).
  now rewrite length_map, length_app.
Qed.


Section ResultFacts.

Variable re_compile : string -> option (string -> bool).
Hypothesis re_ok : re_conforms re_compile.

Variables (df out : DataFrame) (pp qq id_col ev : string).
Hypothesis pp_plain : plain_pattern pp = true.
Hypothesis qq_plain : plain_pattern qq = true.
Hypothesis returned :
  snd (clean_and_align_redcap_data re_compile df pp qq id_col ev) = Ok out.

Lemma returned_frame :
  out = mkFrame
          (remove_key "Sort_Key"
             (assign "Sort_Key" numeric (assign ev object_ (columns df))))
          (aligned_rows pp qq id_col ev (map (lower_row ev) (rows df))).
Proof. eapply align_Ok_frame; eauto. Qed.

(** The result has no column and no field named [Sort_Key], whether the
    table had one or not; its other columns are those of the table, the event
    column as an object column; each of its rows is a row of the table with
    the event in lower case and without the field [Sort_Key]. *)
Theorem result_rows_from_input :
  lookup "Sort_Key" (columns out) = None /\
  (forall c, "Sort_Key" <> c -> ev <> c ->
             lookup c (columns out) = lookup c (columns df)) /\
  ("Sort_Key" <> ev -> lookup ev (columns out) = Some object_) /\
  (forall r, In r (rows out) ->
     lookup "Sort_Key" r = None /\
     exists x, In x (rows df) /\ r = remove_key "Sort_Key" (lower_row ev x)).
Proof.
  rewrite returned_frame.
  cbn [rows columns]. repeat split.
  - apply lookup_remove_same.
  - intros c Hsk Hev. rewrite lookup_strip by assumption.
    now apply lookup_assign_other.
  - intros Hsk. rewrite lookup_strip by assumption. apply lookup_assign_same.
  - apply aligned_rows_source in H. destruct H as [x [-> _]].
    apply lookup_remove_same.
  - apply aligned_rows_source in H. destruct H as [x [-> Hx]].
    apply in_map_iff in Hx. destruct Hx as [x0 [<- Hx0]].
    exists x0. split; auto. apply out_row_remove.
Qed.


(** The result has at most twice as many rows as the table, and at most as
    many when no row of the table is classified both Profile and Period. *)
Theorem result_length_bound :
  (List.length (rows out) <= 2 * List.length (rows df))%nat /\
  ((forall x, In x (rows df) ->
      matches pp ev (lower_row ev x) = true ->
      matches qq ev (lower_row ev x) = false) ->
   (List.length (rows out) <= List.length (rows df))%nat).
Proof.
  rewrite returned_frame.
  cbn [rows]. rewrite aligned_rows_length.
  set (rs := map (lower_row ev) (rows df)).
  set (v := has_id id_col (valid_ids pp qq id_col ev rs)).
  assert (Hn : List.length rs = List.length (rows df)) by apply length_map.
  pose proof (filter_length_le v (filter (matches pp ev) rs)) as H1.
  pose proof (filter_length_le v (period_rows qq ev rs)) as H2.
  pose proof (filter_length_le (matches pp ev) rs) as H3.
  assert (H4 : (List.length (period_rows qq ev rs)
                <= List.length (filter (matches qq ev) rs))%nat).
  { unfold period_rows.
    etransitivity; [apply filter_length_le|apply filter_length_le]. }
  pose proof (filter_length_le (matches qq ev) rs) as H5.
  split; [lia|].
  intros Hx.
  assert (H6 : (List.length (filter (matches pp ev) rs)
                + List.length (filter (matches qq ev) rs)
                <= List.length rs)%nat).
  { apply filter_exclusive_length. intros x Hin. unfold rs in Hin.
    apply in_map_iff in Hin. destruct Hin as [x0 [<- Hx0]]. now apply Hx. }
  lia.
Qed.

End ResultFacts.

(** ** Order, grouping and counts of the result *)

Lemma value_leb_antisym a b :
  value_leb a b = true -> value_leb b a = true -> value_eqb a a = true ->
  value_eqb a b = true.
Proof.
  destruct a, b; simpl; try discriminate.
  - intros H1 H2 _. apply String.eqb_eq. now apply String.leb_antisym.
  - intros H1 H2 _. apply Z.eqb_eq. apply Z.leb_le in H1, H2. lia.
Qed.

Lemma row_leb_id pp id_col ev x y :
  id_col <> "Sort_Key" ->
  row_leb (sort_columns id_col) (with_sort_key pp ev x) (with_sort_key pp ev y)
  = true ->
  value_leb (cell id_col x) (cell id_col y) = true.
Proof.
  intros Hid. unfold row_leb. rewrite !sort_key_with_sort_key by assumption.
  simpl. now destruct (value_leb (cell id_col x) (cell id_col y)).
Qed.

Lemma aligned_rows_sorted_ids pp qq id_col ev rs i j r1 r2 :
  id_col <> "Sort_Key" ->
  nth_error (aligned_rows pp qq id_col ev rs) i = Some r1 ->
  nth_error (aligned_rows pp qq id_col ev rs) j = Some r2 ->
  (i < j)%nat ->
  value_leb (cell id_col r1) (cell id_col r2) = true.
Proof.
  intros Hid H1 H2 Hij.
  destruct (aligned_rows_nth _ _ _ _ _ _ H1) as [x [E1 N1]].
  destruct (aligned_rows_nth _ _ _ _ _ _ H2) as [y [E2 N2]].
  subst r1 r2. rewrite !cell_out_row by auto.
  pose proof (@stable_sort_sorted Row (row_leb (sort_columns id_col))
                (row_leb_total (sort_columns id_col))
                (@row_leb_trans (sort_columns id_col))) as Hs.
  pose proof (@sorted_nth Row (row_leb (sort_columns id_col)) _ _ _ _ _
                (Hs _) Hij N1 N2) as Hle.
  cbv beta in Hle. eapply row_leb_id; eauto.
Qed.

Lemma aligned_rows_id_not_null pp qq id_col ev rs r :
  id_col <> "Sort_Key" ->
  In r (aligned_rows pp qq id_col ev rs) ->
  value_eqb (cell id_col r) (cell id_col r) = true.
Proof.
  intros Hid Hr. apply aligned_rows_In in Hr. destruct Hr as [x [-> [Hv _]]].
  rewrite cell_out_row by auto.
  destruct (valid_pair _ _ _ _ _ _ Hv) as [p [_ [_ [_ [E _]]]]].
  pose proof (value_eqb_eq _ _ E) as Ep. rewrite Ep in E |- *. exact E.
Qed.



Section ResultOrder.

Variable re_compile : string -> option (string -> bool).
Hypothesis re_ok : re_conforms re_compile.

Variables (df out : DataFrame) (pp qq id_col ev : string).
Hypothesis pp_plain : plain_pattern pp = true.
Hypothesis qq_plain : plain_pattern qq = true.
Hypothesis id_not_sort_key : id_col <> "Sort_Key".
Hypothesis ev_not_sort_key : ev <> "Sort_Key".
Hypothesis returned :
  snd (clean_and_align_redcap_data re_compile df pp qq id_col ev) = Ok out.

Lemma returned_rows :
  rows out = aligned_rows pp qq id_col ev (map (lower_row ev) (rows df)).
Proof.
  assert (E : out = mkFrame
                (remove_key "Sort_Key"
                   (assign "Sort_Key" numeric (assign ev object_ (columns df))))
                (aligned_rows pp qq id_col ev (map (lower_row ev) (rows df))))
    by (eapply align_Ok_frame; eauto).
  now rewrite E.
Qed.


(** The rows of the result are in ascending order of id (numbers before
    text); among the rows of one subject those whose event contains the
    profile pattern come first, and rows that agree on that are in ascending
    order of [Repeat Instance]. *)
Theorem result_sorted (i j : nat) (r1 r2 : Row) :
  nth_error (rows out) i = Some r1 ->
  nth_error (rows out) j = Some r2 ->
  (i < j)%nat ->
  value_leb (cell id_col r1) (cell id_col r2) = true /\
  (same_id id_col r1 r2 = true ->
   (matches pp ev r2 = true -> matches pp ev r1 = true) /\
   (matches pp ev r1 = matches pp ev r2 ->
    value_leb (cell "Repeat Instance" r1) (cell "Repeat Instance" r2) = true)).
Proof.
  rewrite returned_rows. intros N1 N2 Hij. split.
  - eapply aligned_rows_sorted_ids; eauto.
  - intros Hsame.
    destruct (aligned_rows_order pp id_not_sort_key ev_not_sort_key qq _ _ _
                N1 N2 Hsame) as [_ Hb].
    split; [|now apply Hb].
    intros M2. destruct (matches pp ev r1) eqn:M1; auto.
    assert (Hsym : same_id id_col r2 r1 = true)
      by (unfold same_id in *; now rewrite value_eqb_sym).
    destruct (aligned_rows_order pp id_not_sort_key ev_not_sort_key qq _ _ _
                N2 N1 Hsym) as [Ha _].
    specialize (Ha M2 M1). lia.
Qed.

(** The rows of a subject are next to each other: a row between two rows of
    one subject belongs to that subject. *)
Theorem result_subjects_contiguous (i j k : nat) (r1 r2 r3 : Row) :
  nth_error (rows out) i = Some r1 ->
  nth_error (rows out) j = Some r2 ->
  nth_error (rows out) k = Some r3 ->
  (i < j)%nat -> (j < k)%nat ->
  same_id id_col r1 r3 = true ->
  same_id id_col r1 r2 = true.
Proof.
  rewrite returned_rows. intros N1 N2 N3 Hij Hjk Hsame.
  pose proof (@aligned_rows_sorted_ids pp qq id_col ev _ i j r1 r2
                id_not_sort_key N1 N2 Hij) as L12.
  pose proof (@aligned_rows_sorted_ids pp qq id_col ev _ j k r2 r3
                id_not_sort_key N2 N3 Hjk) as L23.
  unfold same_id in *.
  pose proof (value_eqb_eq _ _ Hsame) as E13. rewrite <- E13 in L23.
  apply value_leb_antisym; auto.
  eapply aligned_rows_id_not_null; eauto. eapply nth_error_In; eauto.
Qed.


End ResultOrder.

(** ** Letter case *)

Lemma is_upper_lower_ascii c : is_upper (lower_ascii c) = false.
Proof. destruct c as [[] [] [] [] [] [] [] []]; reflexivity. Qed.

Lemma has_upper_lower s : has_upper (lower s) = false.
Proof.
  induction s as [|c s IH]; simpl; auto.
  now rewrite is_upper_lower_ascii, IH.
Qed.

Lemma lower_fixed s : has_upper s = false -> lower s = s.
Proof.
  induction s as [|c s IH]; simpl; auto.
  intros H. apply orb_false_iff in H. destruct H as [Hc Hs].
  rewrite (IH Hs). f_equal. unfold lower_ascii. unfold is_upper in Hc.
  cbv zeta in *. now rewrite Hc.
Qed.

Lemma prefix_has_upper p t :
  String.prefix p t = true -> has_upper p = true -> has_upper t = true.
Proof.
  revert t. induction p as [|a p IH]; intros t; [discriminate 2|].
  destruct t as [|b t]; simpl; [discriminate|].
  destruct (ascii_dec a b) as [->|]; [|discriminate].
  intros Hp Hu. apply orb_true_iff in Hu. apply orb_true_iff.
  destruct Hu as [Hu|Hu]; auto.
Qed.

Lemma contains_has_upper p t :
  contains p t = true -> has_upper p = true -> has_upper t = true.
Proof.
  induction t as [|b t IH]; intros H Hu.
  - destruct p; simpl in *; discriminate.
  - change (contains p (String b t))
      with (String.prefix p (String b t) || contains p t)%bool in H.
    apply orb_true_iff in H. destruct H as [H|H].
    + apply (prefix_has_upper _ _ H Hu).
    + simpl. rewrite (IH H Hu). apply orb_true_r.
Qed.

Lemma matches_upper_pattern p ev x :
  has_upper p = true -> matches p ev (lower_row ev x) = false.
Proof.
  intros Hu. unfold matches. rewrite cell_lower_row.
  destruct (cell ev x) as [s| |]; simpl; auto.
  destruct (contains p (lower s)) eqn:E; auto.
  pose proof (contains_has_upper _ _ E Hu) as H.
  rewrite has_upper_lower in H. discriminate.
Qed.

Lemma filter_none (A : Type) (f : A -> bool) (l : list A) :
  (forall x, In x l -> f x = false) -> filter f l = [].
Proof.
  induction l as [|x l IH]; simpl; intros H; auto.
  rewrite (H x) by auto. apply IH. auto.
Qed.

Lemma aligned_rows_no_valid pp qq id_col ev rs :
  valid_ids pp qq id_col ev rs = [] -> aligned_rows pp qq id_col ev rs = [].
Proof.
  intros H. unfold aligned_rows. rewrite H.
  now rewrite !(filter_none (has_id id_col [])).
Qed.

Section LetterCase.

Variable re_compile : string -> option (string -> bool).
Hypothesis re_ok : re_conforms re_compile.

(** The patterns are not put in lower case while the events are: a pattern
    with an ASCII capital letter occurs in no event, and the result, when
    the call returns one, has no rows. *)
Theorem upper_case_pattern_selects_nothing
    (df out : DataFrame) (pp qq id_col ev : string) :
  plain_pattern pp = true -> plain_pattern qq = true ->
  has_upper pp = true \/ has_upper qq = true ->
  snd (clean_and_align_redcap_data re_compile df pp qq id_col ev) = Ok out ->
  rows out = [].
Proof.
  intros Hpp Hqq Hu H. apply align_Ok_frame in H; auto. subst out. cbn [rows].
  apply aligned_rows_no_valid. unfold valid_ids, intersection.
  destruct Hu as [Hu|Hu].
  - rewrite (filter_none (matches pp ev)); auto.
    intros x Hx. apply in_map_iff in Hx. destruct Hx as [x0 [<- _]].
    now apply matches_upper_pattern.
  - unfold period_rows. rewrite (filter_none (matches qq ev)).
    + simpl. apply filter_none. auto.
    + intros x Hx. apply in_map_iff in Hx. destruct Hx as [x0 [<- _]].
      now apply matches_upper_pattern.
Qed.

(** The event of every row of the result is text without ASCII capital
    letters, whatever the case of the event in the table. *)
Theorem result_events_lower_case
    (df out : DataFrame) (pp qq id_col ev : string) (r : Row) :
  plain_pattern pp = true -> plain_pattern qq = true ->
  ev <> "Sort_Key" ->
  snd (clean_and_align_redcap_data re_compile df pp qq id_col ev) = Ok out ->
  In r (rows out) ->
  exists t, cell ev r = VStr t /\ has_upper t = false /\ lower t = t.
Proof.
  intros Hpp Hqq Hev H Hr. apply align_Ok_frame in H; auto. subst out.
  cbn [rows] in Hr.
  pose proof Hr as Hc. apply aligned_rows_class in Hc; [|assumption].
  assert (Hs : is_str (cell ev r) = true)
    by (destruct Hc as [Hc|[Hc _]]; eapply matches_is_str; eauto).
  apply aligned_rows_source in Hr. destruct Hr as [x [-> Hx]].
  apply in_map_iff in Hx. destruct Hx as [x0 [<- _]].
  rewrite cell_out_row in * by auto. rewrite cell_lower_row in *.
  destruct (cell ev x0) as [s| |]; simpl in Hs; try discriminate.
  exists (lower s). simpl. split; auto. split.
  - apply has_upper_lower.
  - apply lower_idem.
Qed.

End LetterCase.

(** ** Calls that see the same table after line 15 *)

Lemma lower_row_again ev r : lower_row ev (lower_row ev r) = lower_row ev r.
Proof.
  unfold lower_row at 1. rewrite cell_lower_row, str_map_lower_idem.
  apply assign_same. unfold lower_row. apply lookup_assign_same.
Qed.

Section SameAfterLine15.

Variable re_compile : string -> option (string -> bool).

Lemma align_same_after_line_15 df df' pp qq id_col ev s s' :
  (x <- getitem df ev ;; str_lower x) = Ok s ->
  (x <- getitem df' ev ;; str_lower x) = Ok s' ->
  setitem df ev s = setitem df' ev s' ->
  clean_and_align_redcap_data re_compile df pp qq id_col ev
  = clean_and_align_redcap_data re_compile df' pp qq id_col ev.
Proof.
  intros E E' H. unfold clean_and_align_redcap_data.
  rewrite E, E'. cbv beta iota. rewrite H. reflexivity.
Qed.

Lemma line_15_text hdr rs ev d :
  lookup ev hdr = Some d ->
  str_ok (mkSeries d (map (cell ev) rs)) = true ->
  (x <- getitem (mkFrame hdr rs) ev ;; str_lower x)
  = Ok (mkSeries object_ (map (fun r => str_map lower (cell ev r)) rs)).
Proof.
  intros Hl Hs. unfold getitem. cbn [columns rows]. rewrite Hl. cbn [bind].
  unfold str_lower, str_accessor. rewrite Hs. cbn [bind s_values].
  now rewrite map_map.
Qed.

Lemma line_15_fails df pp qq id_col ev e :
  (x <- getitem df ev ;; str_lower x) = Raise e ->
  clean_and_align_redcap_data re_compile df pp qq id_col ev = (df, Raise e).
Proof. intros E. unfold clean_and_align_redcap_data. now rewrite E. Qed.

(** A second call on the table that a call has left in the caller's hands
    does what the first call did: same result or same exception, and the
    table stays as the first call left it. *)
Theorem align_again_on_caller_table (df : DataFrame) (pp qq id_col ev : string) :
  clean_and_align_redcap_data re_compile
    (fst (clean_and_align_redcap_data re_compile df pp qq id_col ev))
    pp qq id_col ev
  = clean_and_align_redcap_data re_compile df pp qq id_col ev.
Proof.
  destruct (x <- getitem df ev ;; str_lower x) as [s|e] eqn:E.
  2:{ rewrite (line_15_fails df pp qq id_col ev E). cbn [fst].
      apply line_15_fails. exact E. }
  destruct df as [hdr rs].
  assert (E0 := E). unfold getitem in E0. cbn [columns rows] in E0.
  destruct (lookup ev hdr) as [d|] eqn:Hl; [|discriminate]. cbn [bind] in E0.
  unfold str_lower, str_accessor in E0.
  destruct (str_ok (mkSeries d (map (cell ev) rs))) eqn:Hok; [|discriminate].
  clear E0. rewrite (line_15_text hdr rs ev Hl Hok) in E.
  inversion E as [Es]. clear E.
  pose proof (line_15_text hdr rs ev Hl Hok) as E.
  assert (H : fst (clean_and_align_redcap_data re_compile (mkFrame hdr rs)
                     pp qq id_col ev)
              = mkFrame (assign ev object_ hdr) (map (lower_row ev) rs)).
  { unfold clean_and_align_redcap_data. rewrite E. cbv beta iota zeta.
    cbn [fst]. apply setitem_rows. }
  rewrite H.
  assert (Hs : str_ok (mkSeries object_ (map (cell ev) (map (lower_row ev) rs)))
               = true) by apply str_ok_text, lowered_event_text.
  eapply align_same_after_line_15.
  - apply (line_15_text _ _ ev (lookup_assign_same ev object_ hdr) Hs).
  - exact E.
  - rewrite !setitem_rows. fold (lower_row ev). f_equal.
    + apply assign_same. apply lookup_assign_same.
    + rewrite map_map. apply map_ext. intros r. apply lower_row_again.
Qed.

(** The call does not see the case of the events: two tables with one header
    and a text event column whose rows agree once the events are in lower
    case get the same result, and the call leaves the same table behind. *)
Theorem align_case_insensitive (df df' : DataFrame) (pp qq id_col ev : string) :
  columns df = columns df' ->
  text_column df ev = true -> text_column df' ev = true ->
  map (lower_row ev) (rows df) = map (lower_row ev) (rows df') ->
  clean_and_align_redcap_data re_compile df pp qq id_col ev
  = clean_and_align_redcap_data re_compile df' pp qq id_col ev.
Proof.
  intros Hc Ht Ht' Hr.
  apply text_column_spec in Ht, Ht'.
  destruct Ht as [Hl Hn]. destruct Ht' as [Hl' Hn'].
  destruct df as [hdr rs]. destruct df' as [hdr' rs'].
  cbn [columns rows] in *. subst hdr'.
  assert (Hs : forall l : list Row,
             (forall r, In r l -> is_num (cell ev r) = false) ->
             str_ok (mkSeries object_ (map (cell ev) l)) = true).
  { intros l Hl0. apply str_ok_text, Forall_forall. intros v Hv.
    apply in_map_iff in Hv. destruct Hv as [r [<- Hin]]. auto. }
  eapply align_same_after_line_15.
  - eapply line_15_text; [exact Hl|auto].
  - eapply line_15_text; [exact Hl'|auto].
  - rewrite !setitem_rows. fold (lower_row ev). now rewrite Hr.
Qed.

End SameAfterLine15.

(** ** The Streamlit shell *)

Section ShellFacts.

Variable re_compile : string -> option (string -> bool).
Hypothesis re_ok : re_conforms re_compile.



(** An upload without rows that has the columns the call reads, the event
    column being an object column, is answered with the number 0 and the
    no-data error, not with an exception. *)
Theorem upload_without_rows (file_name : string) (df : DataFrame) :
  rows df = [] ->
  lookup "Event Name" (columns df) = Some object_ ->
  first_missing ("Record ID" :: "Repeat Instance" :: key_fields) (columns df)
  = None ->
  process_upload re_compile file_name df = [write_original 0; error_no_data].
Proof.
  intros Hr He Hc. unfold process_upload, len. rewrite Hr. cbn [List.length].
  rewrite align_rows_eq by auto.
  rewrite first_missing_none in Hc.
  unfold clean_and_align_redcap_data_rows. rewrite He, Hr. cbn [map].
  change (str_ok (mkSeries object_ [])) with true. cbv iota. cbn [snd filter].
  assert (Hk : first_missing key_fields
                 (assign "Event Name" object_ (columns df)) = None).
  { apply first_missing_none. intros c Hin. apply lookup_assign_some.
    apply Hc. now do 2 right. }
  assert (Hi : first_missing ["Record ID"; "Repeat Instance"]
                 (assign "Event Name" object_ (columns df)) = None).
  { apply first_missing_none. intros c [<-|[<-|[]]]; apply lookup_assign_some;
      apply Hc; simpl; auto. }
  rewrite Hk, Hi. cbn [keys_str_ok]. unfold empty. cbn [rows columns].
  change (aligned_rows "profile" "period" "Record ID" "Event Name" []) with (@nil Row).
  now destruct (remove_key "Sort_Key" _).
Qed.

End ShellFacts.

(** ** A pattern that does not compile *)

Section InvalidPattern.

Variable re_compile : string -> option (string -> bool).

(** When the event column is a text column and one of the patterns is not a
    regular expression that compiles, the call raises the error of
    [re.compile]; the caller's table has its events in lower case by then. *)
Theorem invalid_pattern_raises (df : DataFrame) (pp qq id_col ev : string) :
  text_column df ev = true ->
  re_compile pp = None \/ re_compile qq = None ->
  clean_and_align_redcap_data re_compile df pp qq id_col ev
  = (mkFrame (assign ev object_ (columns df)) (map (lower_row ev) (rows df)),
     Raise ReError).
Proof.
  intros Ht Hre. apply text_column_spec in Ht. destruct Ht as [Hl Hn].
  destruct df as [hdr rs]. cbn [columns rows] in *.
  assert (Hs : forall l : list Row,
             (forall r, In r l -> is_num (cell ev r) = false) ->
             str_ok (mkSeries object_ (map (cell ev) l)) = true).
  { intros l Hl0. apply str_ok_text, Forall_forall. intros v Hv.
    apply in_map_iff in Hv. destruct Hv as [r [<- Hin]]. auto. }
  unfold clean_and_align_redcap_data.
  rewrite (line_15_text hdr rs ev Hl (Hs rs Hn)). cbv beta iota zeta.
  rewrite setitem_rows. fold (lower_row ev). f_equal.
  rewrite (@getitem_frame (assign ev object_ hdr) (map (lower_row ev) rs)
             ev object_ (lookup_assign_same ev object_ hdr)).
  cbn [bind]. unfold str_contains, str_accessor.
  rewrite (str_ok_text (lowered_event_text ev rs)). cbn [bind s_values].
  destruct (re_compile pp) as [search|]; [|reflexivity].
  destruct Hre as [Hre|Hre]; [discriminate|]. rewrite Hre. reflexivity.
Qed.

End InvalidPattern.

(** ** The further properties at concrete tables *)

Lemma paired_returns :
  snd (clean_and_align_redcap_data re_literal paired
         "profile" "period" "Record ID" "Event Name") = Ok paired_result.
Proof. vm_compute. reflexivity. Qed.

Lemma align_returns_iff_witness :
  (exists out,
     snd (clean_and_align_redcap_data re_literal paired
            "profile" "period" "Record ID" "Event Name") = Ok out)
  <-> can_align paired "period" "Record ID" "Event Name" = true.
Proof.
  apply (@align_returns_iff re_literal re_literal_conforms); reflexivity.
Defined.

Lemma align_raises_only_witness :
  AttributeError = AttributeError \/
  exists c, AttributeError = KeyError c /\
            In c ("Event Name" :: key_fields ++ ["Record ID"; "Repeat Instance"]) /\
            has_column numeric_year c = false.
Proof.
  apply (@align_raises_only re_literal re_literal_conforms numeric_year
           "profile" "period" "Record ID" "Event Name" AttributeError).
  - reflexivity.
  - reflexivity.
  - vm_compute. reflexivity.
Defined.

Lemma result_rows_from_input_witness :
  lookup "Sort_Key" (columns paired_result) = None /\
  (forall c, "Sort_Key" <> c -> "Event Name" <> c ->
             lookup c (columns paired_result) = lookup c (columns paired)) /\
  ("Sort_Key" <> "Event Name" ->
   lookup "Event Name" (columns paired_result) = Some object_) /\
  (forall r, In r (rows paired_result) ->
     lookup "Sort_Key" r = None /\
     exists x, In x (rows paired) /\
               r = remove_key "Sort_Key" (lower_row "Event Name" x)).
Proof.
  apply (@result_rows_from_input re_literal re_literal_conforms paired
           paired_result "profile" "period" "Record ID" "Event Name").
  - reflexivity.
  - reflexivity.
  - exact paired_returns.
Defined.


Lemma result_length_bound_witness :
  (List.length (rows paired_result) <= 2 * List.length (rows paired))%nat /\
  ((forall x, In x (rows paired) ->
      matches "profile" "Event Name" (lower_row "Event Name" x) = true ->
      matches "period" "Event Name" (lower_row "Event Name" x) = false) ->
   (List.length (rows paired_result) <= List.length (rows paired))%nat).
Proof.
  apply (@result_length_bound re_literal re_literal_conforms paired
           paired_result "profile" "period" "Record ID" "Event Name").
  - reflexivity.
  - reflexivity.
  - exact paired_returns.
Defined.


Lemma result_sorted_witness :
  value_leb (cell "Record ID" (mk_row 1 (VStr "profile") 1 VNaN VNaN))
            (cell "Record ID" (mk_row 1 (VStr "period") 2 (VStr "Paper B") VNaN))
  = true /\
  (same_id "Record ID" (mk_row 1 (VStr "profile") 1 VNaN VNaN)
           (mk_row 1 (VStr "period") 2 (VStr "Paper B") VNaN) = true ->
   (matches "profile" "Event Name"
      (mk_row 1 (VStr "period") 2 (VStr "Paper B") VNaN) = true ->
    matches "profile" "Event Name"
      (mk_row 1 (VStr "profile") 1 VNaN VNaN) = true) /\
   (matches "profile" "Event Name" (mk_row 1 (VStr "profile") 1 VNaN VNaN)
    = matches "profile" "Event Name"
        (mk_row 1 (VStr "period") 2 (VStr "Paper B") VNaN) ->
    value_leb
      (cell "Repeat Instance" (mk_row 1 (VStr "profile") 1 VNaN VNaN))
      (cell "Repeat Instance" (mk_row 1 (VStr "period") 2 (VStr "Paper B") VNaN))
    = true)).
Proof.
  apply (@result_sorted re_literal re_literal_conforms paired
           paired_result "profile" "period" "Record ID" "Event Name")
    with (i := 0%nat) (j := 2%nat);
    first [reflexivity | discriminate | exact paired_returns | lia].
Defined.

Lemma result_subjects_contiguous_witness :
  same_id "Record ID" (mk_row 1 (VStr "profile") 1 VNaN VNaN)
          (mk_row 1 (VStr "period") 1 (VStr "Paper A") VNaN) = true.
Proof.
  apply (@result_subjects_contiguous re_literal re_literal_conforms paired
           paired_result "profile" "period" "Record ID" "Event Name")
    with (i := 0%nat) (j := 1%nat) (k := 2%nat)
         (r3 := mk_row 1 (VStr "period") 2 (VStr "Paper B") VNaN);
    first [reflexivity | discriminate | exact paired_returns | lia].
Defined.


Lemma upper_case_pattern_selects_nothing_witness :
  rows (mkFrame header []) = [].
Proof.
  apply (@upper_case_pattern_selects_nothing re_literal re_literal_conforms
           paired (mkFrame header []) "Profile" "period" "Record ID" "Event Name").
  - reflexivity.
  - reflexivity.
  - left. reflexivity.
  - vm_compute. reflexivity.
Defined.

Lemma result_events_lower_case_witness :
  exists t,
    cell "Event Name" (mk_row 1 (VStr "period") 1 (VStr "Paper A") VNaN) = VStr t /\
    has_upper t = false /\ lower t = t.
Proof.
  apply (@result_events_lower_case re_literal re_literal_conforms
           paired_upper paired_result "profile" "period" "Record ID" "Event Name").
  - reflexivity.
  - reflexivity.
  - discriminate.
  - vm_compute. reflexivity.
  - simpl. auto.
Defined.

Lemma align_case_insensitive_witness :
  clean_and_align_redcap_data re_literal paired
    "profile" "period" "Record ID" "Event Name"
  = clean_and_align_redcap_data re_literal paired_upper
      "profile" "period" "Record ID" "Event Name".
Proof.
  apply align_case_insensitive.
  - reflexivity.
  - reflexivity.
  - reflexivity.
  - vm_compute. reflexivity.
Defined.


Lemma upload_without_rows_witness :
  process_upload re_literal "export.csv" empty_table
  = [write_original 0; error_no_data].
Proof.
  apply (@upload_without_rows re_literal re_literal_conforms).
  - reflexivity.
  - reflexivity.
  - vm_compute. reflexivity.
Defined.

Lemma invalid_pattern_raises_witness :
  clean_and_align_redcap_data re_literal paired
    "(profile" "period" "Record ID" "Event Name"
  = (mkFrame (assign "Event Name" object_ (columns paired))
             (map (lower_row "Event Name") (rows paired)),
     Raise ReError).
Proof.
  apply invalid_pattern_raises.
  - reflexivity.
  - left. reflexivity.
Defined.
